(** * Remote Workspace Operations Server ([.devcontainer/ws-server.js])

    A shallow embedding of the WebSocket workspace server: the path safety
    validator [isPathSafe], the recursive directory listing [listDirectory],
    the connection authenticator and the per-message action dispatcher with
    its file, git and exec handlers.

    Conventions of the embedding.
    - A JavaScript string is a [string]; white space and escapes are those
      of one-byte characters.  The fields of a decoded request are strings
      when present: a field that may be [undefined] is an [option string].
      Truthiness of such a field ([if (!x)], [x && ...], [x || d]) is
      [truthy]: present and non-empty.
    - A [Buffer] is a [list byte].
    - Calls that leave the process ([fs.*], [exec]) are nodes of a program
      tree [Prog]; the tree branches on every possible answer of the
      environment, so a property of the tree holds for every run.
    - [console.log] / [console.error] lines have no influence on what is
      sent or done and are not represented; neither is the heartbeat timer
      of a served connection.  [ws.send] is taken not to throw. *)

From Stdlib Require Import Bool List Arith NArith ZArith Lia.
From Stdlib.Strings Require Import Ascii String Byte.
Import ListNotations.

Set Warnings "-register-all".

Local Open Scope string_scope.
Local Open Scope bool_scope.
Local Open Scope list_scope.

(** String concatenation, JavaScript's [+] on strings. *)
Infix "+++" := String.append (right associativity, at level 60).

(* ================================================================== *)
(** ** JavaScript string primitives used by the server *)

Module JS.

(** [s.startsWith(p)] *)
Fixpoint startsWith (p s : string) : bool :=
  match p, s with
  | EmptyString, _ => true
  | String a p', String b s' => Ascii.eqb a b && startsWith p' s'
  | String _ _, EmptyString => false
  end.

(** [s.includes(sub)]: [sub] occurs at some offset of [s]. *)
Fixpoint includes (sub s : string) : bool :=
  startsWith sub s ||
  match s with
  | EmptyString => false
  | String _ s' => includes sub s'
  end.

(** [s.endsWith(suffix)] *)
Fixpoint endsWith (suffix s : string) : bool :=
  String.eqb suffix s ||
  match s with
  | EmptyString => false
  | String _ s' => endsWith suffix s'
  end.

(** [s.replace(/\\/g, '/')] *)
Fixpoint replace_backslashes (s : string) : string :=
  match s with
  | EmptyString => EmptyString
  | String c s' =>
      String (if Ascii.eqb c "\"%char then "/"%char else c)
             (replace_backslashes s')
  end.

(** The character class [[A-Za-z]]. *)
Definition is_letter (c : ascii) : bool :=
  let n := nat_of_ascii c in
  (Nat.leb 65 n && Nat.leb n 90) || (Nat.leb 97 n && Nat.leb n 122).

(** [/^[A-Za-z]:/.test(s)] *)
Definition has_drive_prefix (s : string) : bool :=
  match s with
  | String c (String d _) => is_letter c && Ascii.eqb d ":"%char
  | _ => false
  end.

(** Truthiness of a possibly-undefined string: [undefined] and [''] are
    falsy, every other string is truthy. *)
Definition truthy (x : option string) : bool :=
  match x with
  | Some s => negb (String.eqb s "")
  | None => false
  end.

(** [x || d] on strings. *)
Definition or_default (x : option string) (d : string) : string :=
  match x with
  | Some s => if String.eqb s "" then d else s
  | None => d
  end.

(** [s.substring(0, n)] *)
Fixpoint take (n : nat) (s : string) : string :=
  match n, s with
  | S n', String c s' => String c (take n' s')
  | _, _ => EmptyString
  end.

(** [s.substring(n)] *)
Fixpoint drop (n : nat) (s : string) : string :=
  match n, s with
  | S n', String _ s' => drop n' s'
  | _, _ => s
  end.

(** [s.split(sep)] for a one-character separator: never the empty list. *)
Fixpoint split (sep : ascii) (s : string) : list string :=
  match s with
  | EmptyString => [EmptyString]
  | String c s' =>
      if Ascii.eqb c sep then EmptyString :: split sep s'
      else match split sep s' with
           | [] => [String c EmptyString]
           | w :: ws => String c w :: ws
           end
  end.

(** [a[0]] of an array of strings ([undefined] when the array is empty). *)
Definition first (a : list string) : option string :=
  match a with
  | [] => None
  | w :: _ => Some w
  end.

(** White space in the sense of [trim()] and of the regular-expression
    class [\s], restricted to one-byte characters: TAB, LF, VT, FF, CR and
    the space. *)
Definition is_space (c : ascii) : bool :=
  let n := nat_of_ascii c in
  (Nat.leb 9 n && Nat.leb n 13) || Nat.eqb n 32.

Fixpoint trimStart (s : string) : string :=
  match s with
  | EmptyString => EmptyString
  | String c s' => if is_space c then trimStart s' else s
  end.

Fixpoint trimEnd (s : string) : string :=
  match s with
  | EmptyString => EmptyString
  | String c s' =>
      match trimEnd s' with
      | EmptyString => if is_space c then EmptyString else String c EmptyString
      | t => String c t
      end
  end.

(** [s.trim()] *)
Definition trim (s : string) : string := trimEnd (trimStart s).

(** [x === lit] for a possibly-undefined [x]. *)
Definition eq_lit (x : option string) (lit : string) : bool :=
  match x with
  | Some s => String.eqb s lit
  | None => false
  end.

End JS.

(* ================================================================== *)
(** ** Path validation ([isPathSafe], ws-server.js lines 82-90) *)

Definition isPathSafe (filePath : option string) : bool :=
  match filePath with
  | None => false
  | Some fp =>
      if String.eqb fp "" then false else
      let normalized := JS.replace_backslashes fp in
      if JS.startsWith "/" normalized || JS.has_drive_prefix normalized
      then false else
      if JS.includes "../" normalized || JS.includes "/.." normalized
         || String.eqb normalized ".."
      then false else
      if JS.startsWith ".git/" normalized || String.eqb normalized ".git"
      then false else
      if JS.startsWith "node_modules/" normalized
         || String.eqb normalized "node_modules"
      then false else
      true
  end.


(* ================================================================== *)
(** ** Directory listing ([listDirectory], ws-server.js lines 93-125) *)

(** What [fs.readdir(dirPath, { withFileTypes: true })] answers at a
    directory and, for each sub-directory entry, below it.  A directory
    whose [readdir] rejects is [Unreadable]. *)
Inductive Dir : Type :=
| Unreadable (message : string)
| Readable (entries : list Dirent)
with Dirent : Type :=
| FileDirent (name : string)
| DirDirent (name : string) (sub : Dir).

Definition dirent_name (entry : Dirent) : string :=
  match entry with
  | FileDirent name => name
  | DirDirent name _ => name
  end.

Module Entry.
Record t : Type := mk { name : string; path : string; isDirectory : bool }.
End Entry.

(** The two [continue] tests at the head of the loop body. *)
Definition skipped (name : string) : bool :=
  (JS.startsWith "." name
   && negb (String.eqb name ".astro")
   && negb (String.eqb name ".devcontainer"))
  || (String.eqb name "node_modules" || String.eqb name "dist"
      || String.eqb name ".git").

(** [basePath ? basePath + '/' + entry.name : entry.name] *)
Definition relativePath (basePath name : string) : string :=
  if String.eqb basePath "" then name else basePath +++ "/" +++ name.

(** The [for] loop pushes onto [files]; the accumulator of [loop] is that
    array.  A rejected [readdir] leaves [files] empty. *)
Fixpoint listDirectory (dir : Dir) (basePath : string) : list Entry.t :=
  match dir with
  | Unreadable _ => []
  | Readable entries =>
      (fix loop (entries : list Dirent) (files : list Entry.t)
         : list Entry.t :=
         match entries with
         | [] => files
         | entry :: rest =>
             if skipped (dirent_name entry) then loop rest files else
             let relPath := relativePath basePath (dirent_name entry) in
             match entry with
             | DirDirent name sub =>
                 let files1 := files ++ [Entry.mk name relPath true] in
                 let subFiles := listDirectory sub relPath in
                 loop rest (files1 ++ subFiles)
             | FileDirent name =>
                 loop rest (files ++ [Entry.mk name relPath false])
             end
         end) entries []
  end.

(** The listing as the specification words it: entries in directory order,
    the skipped ones left out, every sub-directory's own entry followed at
    once by the listing of its children. *)
Fixpoint listing_spec (dir : Dir) (basePath : string) : list Entry.t :=
  match dir with
  | Unreadable _ => []
  | Readable entries =>
      (fix each (entries : list Dirent) : list Entry.t :=
         match entries with
         | [] => []
         | entry :: rest =>
             (if skipped (dirent_name entry) then [] else
              let relPath := relativePath basePath (dirent_name entry) in
              match entry with
              | DirDirent name sub =>
                  Entry.mk name relPath true :: listing_spec sub relPath
              | FileDirent name => [Entry.mk name relPath false]
              end) ++ each rest
         end) entries
  end.

(* ================================================================== *)
(** ** Values put on the wire *)

(** The object handed to [JSON.stringify] before [ws.send]. *)
Inductive JSON : Type :=
| JString (s : string)
| JBool (b : bool)
| JNumber (n : nat)
| JArray (items : list JSON)
| JObject (fields : list (string * JSON)).

(** An object literal whose property values may be [undefined]:
    [JSON.stringify] leaves such properties out. *)
Fixpoint object (literal : list (string * option JSON))
  : list (string * JSON) :=
  match literal with
  | [] => []
  | (key, Some v) :: rest => (key, v) :: object rest
  | (_, None) :: rest => object rest
  end.

Definition obj (literal : list (string * option JSON)) : JSON :=
  JObject (object literal).

Definition jstr (s : string) : option JSON := Some (JString s).
Definition jopt (x : option string) : option JSON := option_map JString x.
Definition jbool (b : bool) : option JSON := Some (JBool b).

Fixpoint lookup (key : string) (fields : list (string * JSON))
  : option JSON :=
  match fields with
  | [] => None
  | (k, v) :: rest => if String.eqb k key then Some v else lookup key rest
  end.

(** [msg.key], for a message that is an object. *)
Definition field (key : string) (msg : JSON) : option JSON :=
  match msg with
  | JObject fields => lookup key fields
  | _ => None
  end.

Definition file_entry (e : Entry.t) : JSON :=
  obj [("name", jstr (Entry.name e)); ("path", jstr (Entry.path e));
       ("isDirectory", jbool (Entry.isDirectory e))].

(** The double quote, which a string literal cannot hold. *)
Definition dquote : string := String "034"%char EmptyString.

Definition hex_digit (n : nat) : ascii :=
  ascii_of_nat (if Nat.ltb n 10 then 48 + n else 87 + n).

(** [JSON.stringify(s)] for a string [s]: quoted, with the quote, the
    backslash and the control characters escaped. *)
Fixpoint json_escape (s : string) : string :=
  match s with
  | EmptyString => EmptyString
  | String c s' =>
      let n := nat_of_ascii c in
      (if Nat.eqb n 34 then "\" +++ dquote
       else if Nat.eqb n 92 then "\\"
       else if Nat.eqb n 8 then "\b"
       else if Nat.eqb n 12 then "\f"
       else if Nat.eqb n 10 then "\n"
       else if Nat.eqb n 13 then "\r"
       else if Nat.eqb n 9 then "\t"
       else if Nat.ltb n 32
            then "\u00" +++ String (hex_digit (n / 16))
                             (String (hex_digit (n mod 16)) EmptyString)
       else String c EmptyString) +++ json_escape s'
  end.

Definition JSON_stringify (s : string) : string :=
  dquote +++ json_escape s +++ dquote.

(* ================================================================== *)
(** ** Base64 ([buffer.toString('base64')], [Buffer.from(s, 'base64')]) *)

Module Base64.

Definition alphabet : string :=
  "ABCDEFGHIJKLMNOPQRSTUVWXYZabcdefghijklmnopqrstuvwxyz0123456789+/".

(** The character of a six-bit value. *)
Definition char (v : N) : ascii :=
  match String.get (N.to_nat v) alphabet with
  | Some c => c
  | None => "="%char
  end.

(** The six-bit value of a character; the decoder also takes the URL-safe
    [-] and [_]. *)
Definition value (c : ascii) : option N :=
  let n := N_of_ascii c in
  if (65 <=? n)%N && (n <=? 90)%N then Some (n - 65)%N
  else if (97 <=? n)%N && (n <=? 122)%N then Some (n - 71)%N
  else if (48 <=? n)%N && (n <=? 57)%N then Some (n + 4)%N
  else if (n =? 43)%N || (n =? 45)%N then Some 62%N
  else if (n =? 47)%N || (n =? 95)%N then Some 63%N
  else None.

Definition byte_of (n : N) : byte :=
  match Byte.of_N (n mod 256) with
  | Some b => b
  | None => Byte.x00
  end.

(** [buffer.toString('base64')]: three bytes give four characters, the
    last group is padded with [=]. *)
Fixpoint encode (buffer : list byte) : string :=
  match buffer with
  | [] => EmptyString
  | [a] =>
      let x := Byte.to_N a in
      String (char (x / 4)) (String (char ((x mod 4) * 16)) "==")
  | [a; b] =>
      let x := Byte.to_N a in
      let y := Byte.to_N b in
      String (char (x / 4))
        (String (char ((x mod 4) * 16 + y / 16))
           (String (char ((y mod 16) * 4)) "="))
  | a :: b :: c :: rest =>
      let x := Byte.to_N a in
      let y := Byte.to_N b in
      let z := Byte.to_N c in
      String (char (x / 4))
        (String (char ((x mod 4) * 16 + y / 16))
           (String (char ((y mod 16) * 4 + z / 64))
              (String (char (z mod 64)) (encode rest))))
  end.

(** The six-bit values of the input up to the first [=]; characters
    outside the alphabet are passed over. *)
Fixpoint sextets (s : string) : list N :=
  match s with
  | EmptyString => []
  | String c s' =>
      if Ascii.eqb c "="%char then [] else
      match value c with
      | Some v => v :: sextets s'
      | None => sextets s'
      end
  end.

Fixpoint from_sextets (l : list N) : list byte :=
  match l with
  | a :: b :: c :: d :: rest =>
      byte_of (a * 4 + b / 16)
        :: byte_of ((b mod 16) * 16 + c / 4)
        :: byte_of ((c mod 4) * 64 + d)
        :: from_sextets rest
  | [a; b; c] =>
      [byte_of (a * 4 + b / 16); byte_of ((b mod 16) * 16 + c / 4)]
  | [a; b] => [byte_of (a * 4 + b / 16)]
  | _ => []
  end.

(** [Buffer.from(s, 'base64')] *)
Definition decode (s : string) : list byte := from_sextets (sextets s).

End Base64.

(* ================================================================== *)
(** ** Regular expressions of the [exec] allow-list *)

Module Regex.

Inductive t : Type :=
| Fail
| Eps
| Chr (class : ascii -> bool)
| Seq (a b : t)
| Alt (a b : t)
| Star (a : t).

Fixpoint nullable (r : t) : bool :=
  match r with
  | Fail => false
  | Eps => true
  | Chr _ => false
  | Seq a b => nullable a && nullable b
  | Alt a b => nullable a || nullable b
  | Star _ => true
  end.

Fixpoint deriv (r : t) (c : ascii) : t :=
  match r with
  | Fail => Fail
  | Eps => Fail
  | Chr class => if class c then Eps else Fail
  | Seq a b =>
      if nullable a then Alt (Seq (deriv a c) b) (deriv b c)
      else Seq (deriv a c) b
  | Alt a b => Alt (deriv a c) (deriv b c)
  | Star a => Seq (deriv a c) (Star a)
  end.

(** [/^r/.test(s)]: some prefix of [s] matches [r]. *)
Fixpoint test (r : t) (s : string) : bool :=
  nullable r ||
  match s with
  | EmptyString => false
  | String c s' => test (deriv r c) s'
  end.

Fixpoint lit (s : string) : t :=
  match s with
  | EmptyString => Eps
  | String c s' => Seq (Chr (Ascii.eqb c)) (lit s')
  end.

Definition plus (r : t) : t := Seq r (Star r).
Definition space : t := Chr JS.is_space.

Fixpoint seq (rs : list t) : t :=
  match rs with
  | [] => Eps
  | r :: rs' => Seq r (seq rs')
  end.

Fixpoint alt (rs : list t) : t :=
  match rs with
  | [] => Fail
  | r :: rs' => Alt r (alt rs')
  end.

End Regex.

(** [allowedPatterns] of the [exec] action (lines 561-566). *)
Definition allowedPatterns : list Regex.t :=
  let s_plus := Regex.plus Regex.space in
  let s_star := Regex.Star Regex.space in
  let not_shell_op (c : ascii) :=
    negb (Ascii.eqb c "&"%char || Ascii.eqb c ";"%char
          || Ascii.eqb c "|"%char) in
  [ Regex.seq [Regex.lit "cd"; s_plus; Regex.lit "/workspaces/";
               Regex.plus (Regex.Chr not_shell_op); s_star;
               Regex.lit "&&"; s_star; Regex.lit "npm"; s_plus;
               Regex.alt [Regex.lit "install"; Regex.lit "i"]; s_plus];
    Regex.seq [Regex.lit "pm2"; s_plus;
               Regex.alt [Regex.lit "restart"; Regex.lit "start";
                          Regex.lit "stop"; Regex.lit "reload"]; s_plus];
    Regex.seq [Regex.lit "pkill"; s_plus; Regex.lit "-f"; s_plus];
    Regex.seq [Regex.lit "npm"; s_plus; Regex.lit "run"; s_plus] ].

(** [allowedCommands] of the [git] action (line 388). *)
Definition allowedCommands : list string :=
  ["status"; "diff"; "log"; "branch"; "add"; "commit"; "push"; "pull";
   "fetch"; "checkout"; "stash"].

(** [array.includes(x)] on strings; [undefined] is in no list of strings. *)
Definition array_includes (a : list string) (x : option string) : bool :=
  match x with
  | Some s => existsb (String.eqb s) a
  | None => false
  end.

(** [tailwindTriggerExtensions] (lines 233 and 340). *)
Definition tailwindTriggerExtensions : list string :=
  [".astro"; ".tsx"; ".jsx"; ".html"; ".mdx"; ".md"; ".vue"; ".svelte"].

(* ================================================================== *)
(** ** The environment: file system and subprocess calls *)

(** The settled value of a promise (or the outcome of a call that may
    throw): a value, or an error with its [message]. *)
Inductive Result (A : Type) : Type :=
| Ok (value : A)
| Throws (message : string).
Arguments Ok {A} value.
Arguments Throws {A} message.

(** A path argument as the handler hands it to Node; [path.dirname],
    [path.join] and [process.cwd()] are evaluated by the runtime. *)
Inductive PathArg : Type :=
| Undefined
| Lit (p : string)
| Dirname (p : string)
| Cwd
| JoinCwd (p : string).

Definition arg (x : option string) : PathArg :=
  match x with
  | Some p => Lit p
  | None => Undefined
  end.

(** The calls the server awaits, indexed by what they answer.  The
    [readdir] calls of one listing are answered together, by the tree
    below the directory listed. *)
Inductive Eff : Type -> Type :=
| fs_readFile (p : PathArg) : Eff (Result (list byte))
| fs_readFile_utf8 (p : PathArg) : Eff (Result string)
| fs_mkdir_recursive (p : PathArg) : Eff (Result unit)
| fs_writeFile (p : PathArg) (buffer : list byte) : Eff (Result unit)
| fs_writeFile_utf8 (p : PathArg) (data : option string)
    : Eff (Result unit)
| fs_utimes_now (p : PathArg) : Eff (Result unit)
| fs_stat_isDirectory (p : PathArg) : Eff (Result bool)
| fs_rm_recursive_force (p : PathArg) : Eff (Result unit)
| fs_unlink (p : PathArg) : Eff (Result unit)
| fs_rename (oldPath newPath : PathArg) : Eff (Result unit)
| fs_readdir (dirPath : PathArg) : Eff Dir
| execAsync (command : string) (timeout : option N)
    : Eff (Result (string * string)).

(** What the server does on one socket in reaction to one event: a tree
    that branches on the answer of every awaited call. *)
Inductive Prog : Type :=
| Done
| Send (msg : JSON) (k : Prog)
| Close (code : nat) (reason : string) (k : Prog)
| Call {X : Type} (e : Eff X) (k : X -> Prog).

(** *** Statement bodies with exceptions

    A block of statements is a computation with two continuations, the
    normal one and the one of the enclosing [catch]. *)
Definition M (A : Type) : Type := (A -> Prog) -> (string -> Prog) -> Prog.

Definition ret {A : Type} (a : A) : M A := fun k _ => k a.

Definition bind {A B : Type} (m : M A) (f : A -> M B) : M B :=
  fun k h => m (fun a => f a k h) h.

Definition throw {A : Type} (message : string) : M A :=
  fun _ h => h message.

(** [try { body } catch (error) { handler }] *)
Definition try_catch {A : Type} (body : M A) (handler : string -> M A)
  : M A :=
  fun k h => body k (fun message => handler message k h).

(** [await e], for a call whose promise may reject. *)
Definition await {A : Type} (e : Eff (Result A)) : M A :=
  fun k h => Call e (fun r => match r with
                              | Ok a => k a
                              | Throws message => h message
                              end).

(** [ws.send(JSON.stringify(msg))] *)
Definition send (msg : JSON) : M unit := fun k _ => Send msg (k tt).

Notation "x <- m ;; f" := (bind m (fun x => f))
  (at level 61, m at next level, right associativity).
Notation "m ;;; f" := (bind m (fun _ => f))
  (at level 61, right associativity).

(* ================================================================== *)
(** ** Requests *)

(** The decoded request [data]: the fields the handlers read, each a
    string or [undefined]. *)
Module Data.
Record t : Type := mk {
  action : option string;
  path : option string;
  oldPath : option string;
  newPath : option string;
  content : option string;
  encoding : option string;
  command : option string;
  message : option string;
  file : option string
}.
End Data.

(** An inbound frame: text that [JSON.parse] refuses (with the message of
    its [SyntaxError]) or a request object. *)
Inductive Inbound : Type :=
| Malformed (message : string)
| Object (data : Data.t).

(** Messages of the [TypeError]s Node raises on an [undefined] argument. *)
Definition TypeError_path : string :=
  "The " +++ dquote +++ "path" +++ dquote
  +++ " argument must be of type string. Received undefined".
Definition TypeError_paths1 : string :=
  "The " +++ dquote +++ "paths[1]" +++ dquote
  +++ " argument must be of type string. Received undefined".
Definition TypeError_buffer : string :=
  "The first argument must be of type string or an instance of Buffer, "
  +++ "ArrayBuffer, or Array or an Array-like Object. Received undefined".
Definition TypeError_split : string :=
  "Cannot read properties of undefined (reading 'split')".
Definition TypeError_endsWith : string :=
  "Cannot read properties of undefined (reading 'endsWith')".

(** [path.dirname(x)] *)
Definition path_dirname (x : option string) : M PathArg :=
  match x with
  | Some p => ret (Dirname p)
  | None => throw TypeError_path
  end.

(** [Buffer.from(x, 'base64')] *)
Definition Buffer_from_base64 (x : option string) : M (list byte) :=
  match x with
  | Some s => ret (Base64.decode s)
  | None => throw TypeError_buffer
  end.

(** The touch of [global.css] after [write] and [create] (lines 233-241
    and 340-348); its own failure is swallowed. *)
Definition touch_tailwind (path : option string) : M unit :=
  match path with
  | None => throw TypeError_endsWith
  | Some p =>
      if existsb (fun ext => JS.endsWith ext p) tailwindTriggerExtensions
      then try_catch (await (fs_utimes_now (Lit "src/styles/global.css")))
                     (fun _ => ret tt)
      else ret tt
  end.

(** [a || b] on strings. *)
Definition or_else (a b : string) : string :=
  if String.eqb a "" then b else a.

(** One line of [git status --porcelain] (lines 434-444). *)
Definition parse_status_line (line : string) : JSON :=
  let status := JS.take 2 line in
  let file := JS.drop 3 line in
  let type :=
    if JS.includes "?" status then "untracked"
    else if JS.includes "A" status then "added"
    else if JS.includes "D" status then "deleted"
    else if JS.includes "R" status then "renamed"
    else if JS.includes "M" status then "modified"
    else "modified" in
  obj [("file", jstr file); ("status", jstr status); ("type", jstr type)].

(** [stdout.trim().split('\n').filter(line => line.length > 0)] *)
Definition status_lines (stdout : string) : list string :=
  filter (fun line => negb (String.eqb line ""))
         (JS.split "010"%char (JS.trim stdout)).

(** [await e], for a call that settles with a value in every case. *)
Definition await_total {A : Type} (e : Eff A) : M A :=
  fun k _ => Call e k.

(** [if (c) throw new Error(message)] *)
Definition throw_if (c : bool) (message : string) : M unit :=
  if c then throw message else ret tt.

(** [x] when it is truthy, otherwise [throw new Error(message)] *)
Definition required (x : option string) (message : string) : M string :=
  match x with
  | Some s => if String.eqb s "" then throw message else ret s
  | None => throw message
  end.

(* ================================================================== *)
(** ** Operation handlers (the [switch] of lines 190-595) *)

Definition failure (action : string) (identifying : list (string * option JSON))
  (error : string) : JSON :=
  obj ([("action", jstr action)] ++ identifying
       ++ [("success", jbool false); ("error", jstr error)]).

Definition case_read (data : Data.t) : M unit :=
  let path := Data.path data in
  try_catch
    (content <-
       (if JS.eq_lit (Data.encoding data) "base64"
        then buffer <- await (fs_readFile (arg path)) ;;
             ret (Base64.encode buffer)
        else await (fs_readFile_utf8 (arg path))) ;;
     send (obj [("action", jstr "read"); ("path", jopt path);
                ("content", jstr content);
                ("encoding", jstr (JS.or_default (Data.encoding data) "utf8"));
                ("success", jbool true)]))
    (fun error => send (failure "read" [("path", jopt path)] error)).

Definition case_write (data : Data.t) : M unit :=
  let path := Data.path data in
  try_catch
    (dirname <- path_dirname path ;;
     await (fs_mkdir_recursive dirname) ;;;
     (if JS.eq_lit (Data.encoding data) "base64"
      then buffer <- Buffer_from_base64 (Data.content data) ;;
           await (fs_writeFile (arg path) buffer)
      else await (fs_writeFile_utf8 (arg path) (Data.content data))) ;;;
     touch_tailwind path ;;;
     send (obj [("action", jstr "write"); ("path", jopt path);
                ("success", jbool true)]))
    (fun error => send (failure "write" [("path", jopt path)] error)).

Definition case_list (data : Data.t) : M unit :=
  let path := Data.path data in
  try_catch
    (targetPath <-
       (if JS.eq_lit path "." then ret Cwd else
        match path with
        | Some p => ret (JoinCwd p)
        | None => throw TypeError_paths1
        end) ;;
     dir <- await_total (fs_readdir targetPath) ;;
     let basePath :=
       if JS.eq_lit path "." then "" else JS.or_default path "" in
     let files := listDirectory dir basePath in
     send (obj [("action", jstr "list"); ("path", jopt path);
                ("files", Some (JArray (map file_entry files)));
                ("success", jbool true)]))
    (fun error => send (failure "list" [("path", jopt path)] error)).

Definition case_delete (data : Data.t) : M unit :=
  let path := Data.path data in
  try_catch
    (isDirectory <- await (fs_stat_isDirectory (arg path)) ;;
     (if isDirectory : bool
      then await (fs_rm_recursive_force (arg path))
      else await (fs_unlink (arg path))) ;;;
     send (obj [("action", jstr "delete"); ("path", jopt path);
                ("success", jbool true)]))
    (fun error => send (failure "delete" [("path", jopt path)] error)).

Definition case_rename (data : Data.t) : M unit :=
  let oldPath := Data.oldPath data in
  let newPath := Data.newPath data in
  try_catch
    (throw_if (negb (JS.truthy oldPath) || negb (JS.truthy newPath))
              "oldPath and newPath are required" ;;;
     throw_if (negb (isPathSafe oldPath) || negb (isPathSafe newPath))
              "Invalid path" ;;;
     newDir <- path_dirname newPath ;;
     await (fs_mkdir_recursive newDir) ;;;
     await (fs_rename (arg oldPath) (arg newPath)) ;;;
     send (obj [("action", jstr "rename"); ("oldPath", jopt oldPath);
                ("newPath", jopt newPath); ("success", jbool true)]))
    (fun error =>
       send (failure "rename"
               [("oldPath", jopt oldPath); ("newPath", jopt newPath)]
               error)).

Definition case_create (data : Data.t) : M unit :=
  let path := Data.path data in
  try_catch
    (dirname <- path_dirname path ;;
     await (fs_mkdir_recursive dirname) ;;;
     await (fs_writeFile_utf8 (arg path)
              (Some (JS.or_default (Data.content data) ""))) ;;;
     touch_tailwind path ;;;
     send (obj [("action", jstr "create"); ("path", jopt path);
                ("success", jbool true)]))
    (fun error => send (failure "create" [("path", jopt path)] error)).

Definition case_mkdir (data : Data.t) : M unit :=
  let path := Data.path data in
  try_catch
    (await (fs_mkdir_recursive (arg path)) ;;;
     send (obj [("action", jstr "mkdir"); ("path", jopt path);
                ("success", jbool true)]))
    (fun error => send (failure "mkdir" [("path", jopt path)] error)).

Definition case_git (data : Data.t) : M unit :=
  try_catch
    (command <-
       match Data.command data with
       | Some c => ret c
       | None => throw TypeError_split
       end ;;
     let gitCommand := JS.first (JS.split " "%char command) in
     throw_if (negb (array_includes allowedCommands gitCommand))
              "Git command not allowed" ;;;
     out <- await (execAsync ("git " +++ command) None) ;;
     send (obj [("action", jstr "git"); ("success", jbool true);
                ("stdout", jstr (fst out)); ("stderr", jstr (snd out))]))
    (fun error => send (failure "git" [] error)).

Definition case_gitStatus (data : Data.t) : M unit :=
  try_catch
    (out <- await (execAsync "git status --porcelain" None) ;;
     let changes := status_lines (fst out) in
     send (obj [("action", jstr "gitStatus"); ("success", jbool true);
                ("changes", Some (JNumber (List.length changes)));
                ("files", Some (JArray (map JString changes)))]))
    (fun _ =>
       send (obj [("action", jstr "gitStatus"); ("success", jbool true);
                  ("changes", Some (JNumber 0));
                  ("files", Some (JArray []))])).

Definition case_git_status (data : Data.t) : M unit :=
  try_catch
    (out <- await (execAsync "git status --porcelain" None) ;;
     let statusLines := status_lines (fst out) in
     let parsedChanges := map parse_status_line statusLines in
     send (obj [("action", jstr "git-status"); ("success", jbool true);
                ("changes", Some (JArray parsedChanges))]))
    (fun error =>
       send (obj [("action", jstr "git-status"); ("success", jbool false);
                  ("error", jstr error); ("changes", Some (JArray []))])).

Definition case_git_diff (data : Data.t) : M unit :=
  try_catch
    (diffFile <- required (Data.file data)
                   "File path is required for git-diff" ;;
     out <- await (execAsync ("git diff -- " +++ JSON_stringify diffFile)
                     None) ;;
     send (obj [("action", jstr "git-diff"); ("success", jbool true);
                ("file", jstr diffFile); ("diff", jstr (fst out))]))
    (fun error =>
       send (obj [("action", jstr "git-diff"); ("success", jbool false);
                  ("error", jstr error); ("diff", jstr "")])).

Definition case_git_commit (data : Data.t) : M unit :=
  try_catch
    (commitMsg <- required (Data.message data)
                    "Commit message is required" ;;
     await (execAsync "git add -A" None) ;;;
     out <- await (execAsync ("git commit -m " +++ JSON_stringify commitMsg)
                     None) ;;
     send (obj [("action", jstr "git-commit"); ("success", jbool true);
                ("message", jstr commitMsg); ("output", jstr (fst out))]))
    (fun error => send (failure "git-commit" [] error)).

Definition case_git_push (data : Data.t) : M unit :=
  try_catch
    (out <- await (execAsync "git push" None) ;;
     send (obj [("action", jstr "git-push"); ("success", jbool true);
                ("output", jstr (or_else (fst out) (snd out)))]))
    (fun error => send (failure "git-push" [] error)).

Definition case_git_pull_force (data : Data.t) : M unit :=
  try_catch
    (await (execAsync "git fetch origin" None) ;;;
     branchOutput <- await (execAsync "git rev-parse --abbrev-ref HEAD"
                              None) ;;
     let currentBranch := JS.trim (fst branchOutput) in
     out <- await (execAsync ("git reset --hard origin/" +++ currentBranch)
                     None) ;;
     send (obj [("action", jstr "git-pull-force"); ("success", jbool true);
                ("branch", jstr currentBranch);
                ("output", jstr (or_else (fst out) (snd out)))]))
    (fun error => send (failure "git-pull-force" [] error)).

Definition case_exec (data : Data.t) : M unit :=
  try_catch
    (execCommand <- required (Data.command data) "Command is required" ;;
     let isAllowed :=
       existsb (fun pattern => Regex.test pattern execCommand)
               allowedPatterns in
     throw_if (negb isAllowed) "Command not allowed for security reasons" ;;;
     out <- await (execAsync execCommand (Some 120000%N)) ;;
     send (obj [("action", jstr "exec"); ("success", jbool true);
                ("command", jstr execCommand);
                ("output", jstr (or_else (fst out) (snd out)))]))
    (fun error =>
       send (obj [("action", jstr "exec"); ("success", jbool false);
                  ("command", jopt (Data.command data));
                  ("error", jstr error)])).

(** The cases of the [switch], in source order. *)
Definition cases : list (string * (Data.t -> M unit)) :=
  [("read", case_read); ("write", case_write); ("list", case_list);
   ("delete", case_delete); ("rename", case_rename);
   ("create", case_create); ("mkdir", case_mkdir); ("git", case_git);
   ("gitStatus", case_gitStatus); ("git-status", case_git_status);
   ("git-diff", case_git_diff); ("git-commit", case_git_commit);
   ("git-push", case_git_push); ("git-pull-force", case_git_pull_force);
   ("exec", case_exec)].

(** [switch (data.action)]: the first case whose label is strictly equal
    to the action; the [default] case only logs. *)
Fixpoint switch (table : list (string * (Data.t -> M unit)))
  (action : option string) (data : Data.t) : M unit :=
  match table with
  | [] => ret tt
  | (label, body) :: rest =>
      if JS.eq_lit action label then body data else switch rest action data
  end.

(* ================================================================== *)
(** ** The message listener (lines 165-600) *)

Definition JSON_parse (message : Inbound) : M Data.t :=
  match message with
  | Malformed error => throw error
  | Object data => ret data
  end.

Definition pong : JSON := obj [("action", jstr "pong")].

Definition invalid_path (data : Data.t) : JSON :=
  obj [("action", jopt (Data.action data)); ("path", jopt (Data.path data));
       ("error", jstr "Invalid file path"); ("success", jbool false)].

(** The test of line 178: [data.path && !isPathSafe(data.path)]. *)
Definition path_gate (data : Data.t) : bool :=
  JS.truthy (Data.path data) && negb (isPathSafe (Data.path data)).

(** The response of the outer [catch] (line 598). *)
Definition error_response (error : string) : JSON :=
  obj [("action", jstr "error"); ("error", jstr error);
       ("success", jbool false)].

Definition message_body (message : Inbound) : M unit :=
  try_catch
    (data <- JSON_parse message ;;
     if JS.eq_lit (Data.action data) "ping" then send pong
     else if path_gate data then send (invalid_path data)
     else switch cases (Data.action data) data)
    (fun error => send (error_response error)).

Definition on_message (message : Inbound) : Prog :=
  message_body message (fun _ => Done) (fun _ => Done).

(* ================================================================== *)
(** ** Connection authentication (lines 41-79 and 128-147) *)

(** The claims of a verified token that the server reads. *)
Module Payload.
Record t : Type := mk {
  userId : option string;
  username : option string;
  repoId : option string;
  repoName : option string
}.
End Payload.

Module AuthData.
Record t : Type := mk {
  userId : option string;
  username : string;
  repoId : option string;
  repoName : option string
}.
End AuthData.

(** [{ valid: true, payload }] or [{ valid: false, error }] *)
Inductive Verification : Type :=
| Valid (payload : Payload.t)
| Invalid (error : string).

Section Authentication.

(** [new URL(url, 'ws://localhost').searchParams.get('token')]: the
    parameter, [null] when there is none, or the [URL] constructor throws. *)
Variable URL_token : string -> Result (option string).

(** [jwt.verify(token, JWT_PUBLIC_KEY, { algorithms: ['RS256'] })] *)
Variable jwt_verify : string -> Result Payload.t.

Definition verifyToken (token : string) : Verification :=
  match jwt_verify token with
  | Ok decoded => Valid decoded
  | Throws message => Invalid message
  end.

Definition authenticateConnection (url : string) : option AuthData.t :=
  match URL_token url with
  | Throws _ => None
  | Ok token =>
      match token with
      | None => None
      | Some tok =>
          if String.eqb tok "" then None else
          match verifyToken tok with
          | Invalid _ => None
          | Valid payload =>
              Some (AuthData.mk (Payload.userId payload)
                      (JS.or_default (Payload.username payload) "unknown")
                      (Payload.repoId payload)
                      (Payload.repoName payload))
          end
      end
  end.

(** The socket after the [connection] listener has run: either it
    returned at line 138, before any listener was attached, or the
    identity is stored on the socket and the listeners are attached. *)
Inductive Socket : Type :=
| Refused
| Serving (auth : AuthData.t).

(** The [connection] listener: what it does on the socket and the state
    it leaves. *)
Definition on_connection (url : string) : Prog * Socket :=
  match authenticateConnection url with
  | None => (Close 1008 "Unauthorized" Done, Refused)
  | Some authData => (Done, Serving authData)
  end.

End Authentication.

(** A frame arriving on a socket runs the [message] listener if one is
    attached. *)
Definition on_frame (socket : Socket) (message : Inbound) : Prog :=
  match socket with
  | Refused => Done
  | Serving _ => on_message message
  end.

(* ================================================================== *)
(** ** Observations on program trees *)

(** Every message sent on some run satisfies [P]. *)
Fixpoint AllSent (P : JSON -> Prop) (p : Prog) : Prop :=
  match p with
  | Done => True
  | Send msg k => P msg /\ AllSent P k
  | Close _ _ k => AllSent P k
  | Call _ k => forall x, AllSent P (k x)
  end.

(** No run closes the socket. *)
Fixpoint NeverCloses (p : Prog) : Prop :=
  match p with
  | Done => True
  | Send _ k => NeverCloses k
  | Close _ _ _ => False
  | Call _ k => forall x, NeverCloses (k x)
  end.

(** No run sends anything. *)
Fixpoint Silent (p : Prog) : Prop :=
  match p with
  | Done => True
  | Send _ _ => False
  | Close _ _ k => Silent k
  | Call _ k => forall x, Silent (k x)
  end.

(** The program makes no call to the environment at all: no file system
    access and no subprocess. *)
Fixpoint NoCall (p : Prog) : Prop :=
  match p with
  | Done => True
  | Send _ k => NoCall k
  | Close _ _ k => NoCall k
  | Call _ _ => False
  end.

(** The continuation after a leading [execAsync] settles with [r],
    together with the command line that was run. *)
Definition after_exec (p : Prog) (r : Result (string * string))
  : option (string * Prog) :=
  match p with
  | Call e k =>
      match e in Eff X return (X -> Prog) -> option (string * Prog) with
      | execAsync command _ => fun k => Some (command, k r)
      | _ => fun _ => None
      end k
  | _ => None
  end.

(** The continuation after a leading [readdir] of the listing answers. *)
Definition after_readdir (p : Prog) (dir : Dir) : option (PathArg * Prog) :=
  match p with
  | Call e k =>
      match e in Eff X return (X -> Prog) -> option (PathArg * Prog) with
      | fs_readdir dirPath => fun k => Some (dirPath, k dir)
      | _ => fun _ => None
      end k
  | _ => None
  end.

(** A failure response: [success: false] and an [error] string. *)
Definition is_failure (msg : JSON) : Prop :=
  field "success" msg = Some (JBool false)
  /\ exists error, field "error" msg = Some (JString error).

(** On every run, as soon as a subprocess fails the handler answers with
    one message satisfying [P] and stops. *)
Fixpoint ExecFailure (P : JSON -> Prop) (p : Prog) : Prop :=
  match p with
  | Done => True
  | Send _ k => ExecFailure P k
  | Close _ _ k => ExecFailure P k
  | Call e k =>
      (forall x, ExecFailure P (k x))
      /\ match e in Eff X return (X -> Prog) -> Prop with
         | execAsync _ _ => fun k =>
             forall message,
               exists msg, k (Throws message) = Send msg Done /\ P msg
         | _ => fun _ => True
         end k
  end.

(* ================================================================== *)
(** ** Running a program against a file system *)

(** An environment: a state and the answer it gives to every call. *)
Record World : Type := {
  state : Type;
  perform : forall X : Type, state -> Eff X -> state * X
}.
Arguments perform _ {X} _ _.

Inductive Output : Type :=
| Sent (msg : JSON)
| Closed (code : nat) (reason : string).

Fixpoint run (W : World) (w : state W) (p : Prog)
  : state W * list Output :=
  match p with
  | Done => (w, [])
  | Send msg k => let (w', out) := run W w k in (w', Sent msg :: out)
  | Close code reason k =>
      let (w', out) := run W w k in (w', Closed code reason :: out)
  | Call e k => let (w', x) := perform W w e in run W w' (k x)
  end.

(** A file system in memory that only knows files by the literal path
    they were written under; it has no directories and no subprocesses. *)
Module MemFS.

Definition files : Type := list (string * list byte).

Fixpoint find (p : string) (fs : files) : option (list byte) :=
  match fs with
  | [] => None
  | (q, buffer) :: rest => if String.eqb q p then Some buffer else find p rest
  end.

Definition ENOENT : string := "ENOENT: no such file or directory".
Definition ENOSYS : string := "ENOSYS: function not implemented".

Definition answer (X : Type) (fs : files) (e : Eff X) : files * X :=
  match e in Eff X return files * X with
  | fs_readFile (Lit p) =>
      (fs, match find p fs with
           | Some buffer => Ok buffer
           | None => Throws ENOENT
           end)
  | fs_readFile _ => (fs, Throws ENOENT)
  | fs_readFile_utf8 _ => (fs, Throws ENOSYS)
  | fs_mkdir_recursive _ => (fs, Ok tt)
  | fs_writeFile (Lit p) buffer => ((p, buffer) :: fs, Ok tt)
  | fs_writeFile _ _ => (fs, Throws ENOENT)
  | fs_writeFile_utf8 _ _ => (fs, Throws ENOSYS)
  | fs_utimes_now _ => (fs, Throws ENOENT)
  | fs_stat_isDirectory _ => (fs, Throws ENOENT)
  | fs_rm_recursive_force _ => (fs, Ok tt)
  | fs_unlink _ => (fs, Throws ENOENT)
  | fs_rename _ _ => (fs, Throws ENOENT)
  | fs_readdir _ => (fs, Unreadable ENOENT)
  | execAsync _ _ => (fs, Throws ENOSYS)
  end.

Definition world : World := {| state := files; perform := answer |}.

End MemFS.

(* ================================================================== *)
(** ** The properties as the specification words them *)

(** [s] begins with [p]. *)
Definition begins (p s : string) : Prop := exists rest, s = p +++ rest.

(** [sub] occurs somewhere in [s]. *)
Definition occurs (sub s : string) : Prop :=
  exists before after, s = before +++ sub +++ after.


(** The first white-space-delimited token of a command line: leading
    white space passed over, then everything up to the next white space. *)
Fixpoint until_space (s : string) : string :=
  match s with
  | EmptyString => EmptyString
  | String c s' =>
      if JS.is_space c then EmptyString else String c (until_space s')
  end.

Definition first_whitespace_token (s : string) : string :=
  until_space (JS.trimStart s).

(** [c] is one of the characters of [s]. *)
Definition has_char (c : ascii) (s : string) : bool :=
  existsb (Ascii.eqb c) (list_ascii_of_string s).


(** The request fields that bear a path. *)
Definition path_fields (data : Data.t) : list (option string) :=
  [Data.path data; Data.oldPath data; Data.newPath data; Data.file data].

(** The request is refused outright: one failure response, no call to the
    file system or to a subprocess. *)
Definition Refuses (p : Prog) : Prop :=
  exists msg, p = Send msg Done /\ is_failure msg.

(** The shape the specification gives to every outbound message. *)
Definition has_action (msg : JSON) : Prop :=
  exists a, field "action" msg = Some (JString a).

Definition has_success (msg : JSON) : Prop :=
  exists b, field "success" msg = Some (JBool b).

(** [c] is a letter of the Latin alphabet. *)
Definition Letter (c : ascii) : Prop :=
  (65 <= nat_of_ascii c <= 90)%nat \/ (97 <= nat_of_ascii c <= 122)%nat.

(** The rejection rule of the path validator in words: absent or empty;
    or, once every backslash is read as a slash, absolute (a leading
    slash or a drive letter), holding a [../] or a [/..] or being [..],
    or being one of the two protected directories or lying under it. *)
Definition Unsafe (filePath : option string) : Prop :=
  match filePath with
  | None => True
  | Some fp =>
      fp = ""
      \/ let n := JS.replace_backslashes fp in
         begins "/" n
         \/ (exists c rest, Letter c /\ n = String c (String ":" rest))
         \/ occurs "../" n \/ occurs "/.." n \/ n = ".."
         \/ n = ".git" \/ begins ".git/" n
         \/ n = "node_modules" \/ begins "node_modules/" n
  end.


(** What one directory entry contributes to a listing made under
    [basePath], given the listing function for sub-directories. *)
Definition contribution (list_sub : Dir -> string -> list Entry.t)
  (basePath : string) (entry : Dirent) : list Entry.t :=
  if skipped (dirent_name entry) then [] else
  let relPath := relativePath basePath (dirent_name entry) in
  match entry with
  | DirDirent name sub => Entry.mk name relPath true :: list_sub sub relPath
  | FileDirent name => [Entry.mk name relPath false]
  end.

(** The sub-directories of a list of entries all satisfy [P]. *)
Definition subdir (P : Dir -> Prop) (entry : Dirent) : Prop :=
  match entry with
  | DirDirent _ sub => P sub
  | FileDirent _ => True
  end.

Definition subdirs (P : Dir -> Prop) (entries : list Dirent) : Prop :=
  Forall (subdir P) entries.

(** The request [{ action }]. *)
Definition request (action : string) : Data.t :=
  Data.mk (Some action) None None None None None None None None.

(** The request [{ action, path }]. *)
Definition path_request (action path : string) : Data.t :=
  Data.mk (Some action) (Some path) None None None None None None None.

(** The request [{ action: 'git', command }]. *)
Definition git_request (command : string) : Data.t :=
  Data.mk (Some "git") None None None None None (Some command) None None.

(** The request [{ action: 'git-diff', file }]. *)
Definition git_diff_request (file : string) : Data.t :=
  Data.mk (Some "git-diff") None None None None None None None (Some file).

(** The request [{ action, path, content, encoding: 'base64' }]. *)
Definition base64_request (action path : string) (content : option string)
  : Data.t :=
  Data.mk (Some action) (Some path) None None content (Some "base64") None
    None None.

(** The horizontal tab. *)
Definition TAB : string := String "009"%char EmptyString.

(** The line feed. *)
Definition LF : string := String "010"%char EmptyString.

(** What remains to run once [JSON.parse], the [ping] test and the path
    gate are passed: the [switch], inside the outer [try]. *)
Definition dispatched (data : Data.t) : Prog :=
  switch cases (Data.action data) data
    (fun _ => Done) (fun error => Send (error_response error) Done).


(** The git actions that report a failed subprocess as a failure. *)
Definition reporting_git_actions : list string :=
  ["git"; "git-status"; "git-diff"; "git-commit"; "git-push";
   "git-pull-force"].

(** The answer of [gitStatus] when its subprocess fails: no changes. *)
Definition no_changes (msg : JSON) : Prop :=
  msg = obj [("action", jstr "gitStatus"); ("success", jbool true);
             ("changes", Some (JNumber 0)); ("files", Some (JArray []))].

(** The changes of a porcelain status output as typed records. *)
Definition typed_changes (stdout : string) : JSON :=
  JArray (map parse_status_line (status_lines stdout)).

(** The shape the specification gives to every outbound message: an
    [action], a boolean [success], and an [error] string when [success]
    is false. *)
Definition Wellformed (msg : JSON) : Prop :=
  has_action msg
  /\ has_success msg
  /\ (field "success" msg = Some (JBool false) ->
      exists error, field "error" msg = Some (JString error)).

(** The request names its action. *)
Definition names_action (message : Inbound) : Prop :=
  match message with
  | Malformed _ => True
  | Object data => Data.action data <> None
  end.

(** A token service for examples: the query string [?token=...] is read
    off the end of the URL, and only the token [signed] verifies. *)
Module Demo.

Definition URL_token (url : string) : Result (option string) :=
  if String.eqb url "/?token=signed" then Ok (Some "signed")
  else if String.eqb url "/?token=forged" then Ok (Some "forged")
  else if String.eqb url "/?token=" then Ok (Some "")
  else if String.eqb url "/" then Ok None
  else Throws "Invalid URL".

Definition jwt_verify (token : string) : Result Payload.t :=
  if String.eqb token "signed"
  then Ok (Payload.mk (Some "u1") None (Some "r1") (Some "portfolio"))
  else Throws "invalid signature".

End Demo.

(** The handshake carries no token, or one that does not verify. *)
Definition unauthenticated (URL_token : string -> Result (option string))
  (jwt_verify : string -> Result Payload.t) (url : string) : Prop :=
  URL_token url = Ok None
  \/ exists token error,
       URL_token url = Ok (Some token) /\ jwt_verify token = Throws error.

(** The answers of a successful [write] and [read]. *)
Definition write_ok (path : string) : JSON :=
  obj [("action", jstr "write"); ("path", jstr path);
       ("success", jbool true)].

Definition read_ok (path content encoding : string) : JSON :=
  obj [("action", jstr "read"); ("path", jstr path);
       ("content", jstr content); ("encoding", jstr encoding);
       ("success", jbool true)].

(** Induction on a directory tree, with the property known of every
    sub-directory of a readable directory. *)
Section Dir_induction.

Variable P : Dir -> Prop.
Hypothesis P_unreadable : forall message, P (Unreadable message).
Hypothesis P_readable : forall entries, subdirs P entries -> P (Readable entries).

Fixpoint Dir_induction (dir : Dir) : P dir :=
  match dir with
  | Unreadable message => P_unreadable message
  | Readable entries =>
      P_readable entries
        ((fix each (entries : list Dirent) : subdirs P entries :=
            match entries with
            | [] => Forall_nil (subdir P)
            | entry :: rest =>
                @Forall_cons _ (subdir P) entry rest
                  (match entry return subdir P entry with
                   | DirDirent _ sub => Dir_induction sub
                   | FileDirent _ => I
                   end)
                  (each rest)
            end) entries)
  end.

End Dir_induction.

(* ================================================================== *)
(** ** Process start (lines 12-39) *)

(** The outcome of the top-level statements: [process.exit(code)], or the
    [WebSocketServer] is created. *)
Inductive Startup : Type :=
| Exit (code : nat)
| Listening (port : N) (maxPayload : N).

Definition PORT : N := 8080.

(** [JWT_PUBLIC_KEY] is [process.env.JWT_PUBLIC_KEY]. *)
Definition startup (JWT_PUBLIC_KEY : option string) : Startup :=
  match JWT_PUBLIC_KEY with
  | None => Exit 1
  | Some key =>
      if String.eqb key "" then Exit 1 else
      if negb (JS.includes "BEGIN PUBLIC KEY" key)
         && negb (JS.includes "BEGIN RSA PUBLIC KEY" key)
      then Exit 1
      else Listening PORT (50 * 1024 * 1024)
  end.

(* ================================================================== *)
(** ** Connection health (lines 149-163 and 602-610) *)

Module Heartbeat.

(** [isAlive], and whether [pingInterval] is still armed. *)
Record t : Type := mk { isAlive : bool; armed : bool }.

(** The state when the listeners are attached (lines 150 and 155). *)
Definition initial : t := mk true true.

(** What can happen on a served socket, the [message] event apart: a ping
    or pong frame arrives, the interval fires, the socket closes or
    reports an error. *)
Inductive Event : Type :=
| ping_frame
| pong_frame
| interval
| close
| error.

Inductive Action : Type :=
| ws_pong
| ws_ping
| ws_terminate.

(** One listener run.  A cleared interval does not fire. *)
Definition step (s : t) (e : Event) : t * list Action :=
  match e with
  | ping_frame => (s, [ws_pong])
  | pong_frame => (mk true (armed s), [])
  | interval =>
      if negb (armed s) then (s, []) else
      if negb (isAlive s) then (mk (isAlive s) false, [ws_terminate])
      else (mk false (armed s), [ws_ping])
  | close => (mk (isAlive s) false, [])
  | error => (mk (isAlive s) false, [])
  end.

(** The events of a connection, in order. *)
Fixpoint run (s : t) (events : list Event) : t * list Action :=
  match events with
  | [] => (s, [])
  | e :: rest =>
      let (s1, done) := step s e in
      let (s2, later) := run s1 rest in
      (s2, done ++ later)
  end.


End Heartbeat.

(* ================================================================== *)
(** ** Further observations on program trees *)


(** Every call made on some run satisfies [P]. *)
Fixpoint AllCalls (P : forall X : Type, Eff X -> Prop) (p : Prog) : Prop :=
  match p with
  | Done => True
  | Send _ k => AllCalls P k
  | Close _ _ k => AllCalls P k
  | Call e k => P _ e /\ forall x, AllCalls P (k x)
  end.

(** What is seen of a run whose subprocesses settle as [answers] say, one
    after the other: the command lines handed to the shell and the
    messages sent.  The account stops at a subprocess for which no answer
    is left, and at a call that is not a subprocess. *)
Inductive Seen : Type :=
| Ran (command : string)
| Got (msg : JSON).

Fixpoint account (p : Prog) (answers : list (Result (string * string)))
  : list Seen :=
  match p with
  | Done => []
  | Send msg k => Got msg :: account k answers
  | Close _ _ k => account k answers
  | Call e k =>
      match e in Eff X return (X -> Prog) -> list Seen with
      | execAsync command _ => fun k =>
          Ran command ::
          match answers with
          | [] => []
          | r :: rest => account (k r) rest
          end
      | _ => fun _ => []
      end k
  end.



(** [isAllowed] of the [exec] case (line 567). *)
Definition isAllowed (execCommand : string) : bool :=
  existsb (fun pattern => Regex.test pattern execCommand) allowedPatterns.


(** The segments of a path: its parts between slashes. *)
Definition segments (p : string) : list string :=
  JS.split "/" (JS.replace_backslashes p).

(** [p] is [base] or lies below it. *)
Definition below (base p : string) : Prop :=
  base = "" \/ p = base \/ begins (base +++ "/") p.



(** No socket [close] or [error] among the events. *)
Definition undisturbed (events : list Heartbeat.Event) : Prop :=
  ~ In Heartbeat.close events /\ ~ In Heartbeat.error events.

(** The events start with a stretch free of [pong], [close] and [error]
    and then the interval fires. *)
Definition unanswered (events : list Heartbeat.Event) : Prop :=
  exists b c,
    events = b ++ Heartbeat.interval :: c
    /\ ~ In Heartbeat.pong_frame b /\ undisturbed b.

(** Somewhere the interval fires twice with no [pong] in between, the
    socket not having closed or failed by then. *)
Definition missed_heartbeat (events : list Heartbeat.Event) : Prop :=
  exists a b c,
    events = a ++ Heartbeat.interval :: b ++ Heartbeat.interval :: c
    /\ ~ In Heartbeat.pong_frame b /\ undisturbed (a ++ b).



(** A request that lacks the field its handler requires: [git] without a
    [command], [git-diff] without a [file], [git-commit] without a
    [message], [exec] without a [command] (absent or empty, except that
    an empty [git] command is not missing). *)
Definition lacks_required_field (data : Data.t) : Prop :=
  (Data.action data = Some "git" /\ Data.command data = None)
  \/ (Data.action data = Some "git-diff"
      /\ JS.truthy (Data.file data) = false)
  \/ (Data.action data = Some "git-commit"
      /\ JS.truthy (Data.message data) = false)
  \/ (Data.action data = Some "exec"
      /\ JS.truthy (Data.command data) = false).






(** A file system in memory for text files, known by the literal path
    they were written under; [global.css] does not exist in it, and it
    has no subprocesses. *)
Module TextFS.

Definition files : Type := list (string * string).

Fixpoint find (p : string) (fs : files) : option string :=
  match fs with
  | [] => None
  | (q, text) :: rest => if String.eqb q p then Some text else find p rest
  end.

Definition answer (X : Type) (fs : files) (e : Eff X) : files * X :=
  match e in Eff X return files * X with
  | fs_readFile _ => (fs, Throws MemFS.ENOSYS)
  | fs_readFile_utf8 (Lit p) =>
      (fs, match find p fs with
           | Some text => Ok text
           | None => Throws MemFS.ENOENT
           end)
  | fs_readFile_utf8 _ => (fs, Throws MemFS.ENOENT)
  | fs_mkdir_recursive _ => (fs, Ok tt)
  | fs_writeFile _ _ => (fs, Throws MemFS.ENOSYS)
  | fs_writeFile_utf8 (Lit p) (Some text) => ((p, text) :: fs, Ok tt)
  | fs_writeFile_utf8 _ _ => (fs, Throws MemFS.ENOENT)
  | fs_utimes_now _ => (fs, Throws MemFS.ENOENT)
  | fs_stat_isDirectory _ => (fs, Throws MemFS.ENOENT)
  | fs_rm_recursive_force _ => (fs, Ok tt)
  | fs_unlink _ => (fs, Throws MemFS.ENOENT)
  | fs_rename _ _ => (fs, Throws MemFS.ENOENT)
  | fs_readdir _ => (fs, Unreadable MemFS.ENOENT)
  | execAsync _ _ => (fs, Throws MemFS.ENOSYS)
  end.

Definition world : World := {| state := files; perform := answer |}.

End TextFS.

(** The file-system calls a file operation on [data] may make: on the
    request's own [path] (or [oldPath] and [newPath], both validated),
    on the parent directory of the target, on the listed directory, and
    the touch of [global.css]; never a subprocess. *)
Definition confined (data : Data.t) (X : Type) (e : Eff X) : Prop :=
  match e with
  | fs_readFile a | fs_readFile_utf8 a | fs_stat_isDirectory a
  | fs_rm_recursive_force a | fs_unlink a
  | fs_writeFile a _ | fs_writeFile_utf8 a _ =>
      a = arg (Data.path data)
  | fs_mkdir_recursive a =>
      a = arg (Data.path data)
      \/ (exists p, Data.path data = Some p /\ a = Dirname p)
      \/ (exists n, Data.newPath data = Some n /\ a = Dirname n)
  | fs_utimes_now a => a = Lit "src/styles/global.css"
  | fs_rename a b =>
      a = arg (Data.oldPath data) /\ b = arg (Data.newPath data)
      /\ isPathSafe (Data.oldPath data) = true
      /\ isPathSafe (Data.newPath data) = true
  | fs_readdir a =>
      a = Cwd \/ exists p, Data.path data = Some p /\ a = JoinCwd p
  | execAsync _ _ => False
  end.

(** The file operations. *)
Definition file_operations : list string :=
  ["read"; "write"; "list"; "delete"; "rename"; "create"; "mkdir"].


(* ================================================================== *)
(** * Properties *)

(** ** Strings *)

Lemma append_nil_r (s : string) : s +++ "" = s.
Proof. induction s; simpl; congruence. Qed.

Lemma append_assoc (a b c : string) : (a +++ b) +++ c = a +++ b +++ c.
Proof. induction a; simpl; congruence. Qed.

Lemma startsWith_begins (p s : string) :
  JS.startsWith p s = true <-> begins p s.
Proof.
  revert s; induction p as [|a p IH]; intros s; simpl.
  - split; [intros _; exists s; reflexivity | reflexivity].
  - destruct s as [|b s].
    + split; [discriminate | intros [r Hr]; discriminate].
    + rewrite andb_true_iff, Ascii.eqb_eq, IH. split.
      * intros [-> [r ->]]. exists r. reflexivity.
      * intros [r Hr]. simpl in Hr. injection Hr as -> ->.
        split; [reflexivity | exists r; reflexivity].
Qed.

Lemma startsWith_false (p s : string) :
  JS.startsWith p s = false <-> ~ begins p s.
Proof.
  rewrite <- startsWith_begins. destruct (JS.startsWith p s); split;
    congruence.
Qed.

Lemma includes_occurs (sub s : string) :
  JS.includes sub s = true <-> occurs sub s.
Proof.
  induction s as [|c s IH]; simpl.
  - rewrite orb_false_r, startsWith_begins. split.
    + intros [r Hr]. exists "", r. exact Hr.
    + intros [b [a H]]. destruct b; [exists a; exact H | discriminate].
  - rewrite orb_true_iff, startsWith_begins, IH. split.
    + intros [[r Hr] | [b [a H]]].
      * exists "", r. exact Hr.
      * exists (String c b), a. simpl. congruence.
    + intros [b [a H]]. destruct b as [|c' b].
      * left. exists a. exact H.
      * right. simpl in H. injection H as _ H. exists b, a. exact H.
Qed.

Lemma includes_false (sub s : string) :
  JS.includes sub s = false <-> ~ occurs sub s.
Proof.
  rewrite <- includes_occurs. destruct (JS.includes sub s); split;
    congruence.
Qed.

Lemma is_letter_Letter (c : ascii) : JS.is_letter c = true <-> Letter c.
Proof.
  unfold JS.is_letter, Letter.
  rewrite orb_true_iff, !andb_true_iff, !Nat.leb_le. tauto.
Qed.

Lemma has_drive_prefix_spec (s : string) :
  JS.has_drive_prefix s = true
  <-> exists c rest, Letter c /\ s = String c (String ":" rest).
Proof.
  destruct s as [|c [|d rest]]; simpl.
  - split; [discriminate | intros (? & ? & _ & H); discriminate].
  - split; [discriminate | intros (? & ? & _ & H); discriminate].
  - rewrite andb_true_iff, is_letter_Letter, Ascii.eqb_eq. split.
    + intros [Hc ->]. exists c, rest. auto.
    + intros (c' & r & Hc & H). injection H as -> -> ->. auto.
Qed.

(** ** The path validator *)

Example isPathSafe_relative :
  isPathSafe (Some "src/pages/index.astro") = true.
Proof. reflexivity. Qed.

Example isPathSafe_backslash_traversal : isPathSafe (Some "a\..\b") = false.
Proof. reflexivity. Qed.

Example isPathSafe_drive : isPathSafe (Some "C:\x") = false.
Proof. reflexivity. Qed.

Example isPathSafe_dotdot_name : isPathSafe (Some "..hidden") = true.
Proof. reflexivity. Qed.

(** C2, as stated, fails: a path that holds [.git/] below its first
    segment is accepted, so not every path containing [.git/...] anywhere
    is rejected. *)
Lemma C2_nested_git_accepted :
  occurs ".git/" "src/.git/config"
  /\ isPathSafe (Some "src/.git/config") = true.
Proof.
  split; [exists "src/", "config"; reflexivity | reflexivity].
Qed.

(** C2, amended: the validator rejects exactly the absent and the empty
    path and, after backslashes are normalised to slashes, the paths that
    begin with a slash or with a drive letter and a colon, that hold
    [../] or [/..] or are [..], and that are [.git] or [node_modules] or
    begin with [.git/] or [node_modules/]; every other path is accepted. *)
Theorem C2_isPathSafe_rejects_iff (filePath : option string) :
  isPathSafe filePath = false <-> Unsafe filePath.
Proof.
  destruct filePath as [fp|]; [|split; [exact (fun _ => I) | reflexivity]].
  unfold isPathSafe, Unsafe.
  destruct (String.eqb_spec fp "") as [->|Hne]; [split; auto|].
  generalize (JS.replace_backslashes fp); intros n.
  rewrite <- !startsWith_begins, <- !includes_occurs.
  rewrite <- has_drive_prefix_spec.
  rewrite <- !(String.eqb_eq n).
  generalize (JS.startsWith "/" n) (JS.has_drive_prefix n)
    (JS.includes "../" n) (JS.includes "/.." n) (String.eqb n "..")
    (JS.startsWith ".git/" n) (String.eqb n ".git")
    (JS.startsWith "node_modules/" n) (String.eqb n "node_modules").
  intros b1 b2 b3 b4 b5 b6 b7 b8 b9.
  destruct b1; [split; auto|].
  destruct b2; [split; auto|].
  destruct b3; [split; auto 6|].
  destruct b4; [split; auto 7|].
  destruct b5; [split; auto 8|].
  destruct b6; [split; auto 10|].
  destruct b7; [split; auto 10|].
  destruct b8; [split; auto 12|].
  destruct b9; [split; auto 12|].
  simpl. split; [discriminate|].
  intros [H|H]; [contradiction|].
  repeat (destruct H as [H|H]; try discriminate).
Qed.




Lemma isPathSafe_unfold (fp : string) :
  fp <> "" ->
  isPathSafe (Some fp) =
  let n := JS.replace_backslashes fp in
  negb (JS.startsWith "/" n || JS.has_drive_prefix n
        || (JS.includes "../" n || JS.includes "/.." n || String.eqb n "..")
        || (JS.startsWith ".git/" n || String.eqb n ".git")
        || (JS.startsWith "node_modules/" n
            || String.eqb n "node_modules")).
Proof.
  intros Hne. unfold isPathSafe.
  destruct (String.eqb_spec fp "") as [E|_]; [contradiction|].
  cbv zeta. generalize (JS.replace_backslashes fp); intros n.
  destruct (JS.startsWith "/" n || JS.has_drive_prefix n); [reflexivity|].
  destruct (JS.includes "../" n || JS.includes "/.." n || String.eqb n "..");
    [reflexivity|].
  destruct (JS.startsWith ".git/" n || String.eqb n ".git"); [reflexivity|].
  destruct (JS.startsWith "node_modules/" n || String.eqb n "node_modules");
    reflexivity.
Qed.




(** ** Directory listing *)


Lemma listing_spec_cons (entry : Dirent) (rest : list Dirent)
  (basePath : string) :
  listing_spec (Readable (entry :: rest)) basePath
  = contribution listing_spec basePath entry
    ++ listing_spec (Readable rest) basePath.
Proof. destruct entry; reflexivity. Qed.

(** The loop that pushes onto [files] builds the listing of the
    specification. *)
Lemma listDirectory_refines (dir : Dir) :
  forall basePath, listDirectory dir basePath = listing_spec dir basePath.
Proof.
  induction dir as [message|entries IH] using Dir_induction;
    intros basePath; [reflexivity|].
  simpl.
  match goal with
  | |- ?loop entries [] = ?each entries =>
      enough (H : forall files, loop entries files = files ++ each entries)
        by (rewrite H; reflexivity)
  end.
  induction IH as [|entry rest Hsub _ IHrest]; intros files.
  - rewrite app_nil_r. reflexivity.
  - destruct (skipped (dirent_name entry)) eqn:Hskip.
    + rewrite IHrest. reflexivity.
    + destruct entry as [name|name sub]; rewrite IHrest.
      * rewrite <- app_assoc. reflexivity.
      * rewrite Hsub, <- !app_assoc. reflexivity.
Qed.

Lemma listDirectory_cons (entry : Dirent) (rest : list Dirent)
  (basePath : string) :
  listDirectory (Readable (entry :: rest)) basePath
  = contribution listDirectory basePath entry
    ++ listDirectory (Readable rest) basePath.
Proof.
  rewrite !listDirectory_refines, listing_spec_cons.
  unfold contribution. destruct (skipped (dirent_name entry)); [reflexivity|].
  destruct entry; [reflexivity|]. rewrite listDirectory_refines. reflexivity.
Qed.

Lemma listed_not_skipped (dir : Dir) :
  forall basePath e,
    In e (listDirectory dir basePath) -> skipped (Entry.name e) = false.
Proof.
  induction dir as [message|entries IH] using Dir_induction;
    intros basePath e; [intros []|].
  induction IH as [|entry rest Hsub _ IHrest]; [intros []|].
  rewrite listDirectory_cons, in_app_iff. intros [Hin|Hin]; [|auto].
  unfold contribution in Hin.
  destruct (skipped (dirent_name entry)) eqn:Hskip; [destruct Hin|].
  destruct entry as [name|name sub]; simpl in Hin, Hskip.
  - destruct Hin as [<-|[]]. exact Hskip.
  - destruct Hin as [<-|Hin]; [exact Hskip | eauto].
Qed.

Lemma skipped_spec (name : string) :
  skipped name = true
  <-> (begins "." name /\ name <> ".astro" /\ name <> ".devcontainer")
      \/ name = "node_modules" \/ name = "dist" \/ name = ".git".
Proof.
  unfold skipped.
  rewrite !orb_true_iff, !andb_true_iff, !negb_true_iff,
    startsWith_begins, !String.eqb_eq, !String.eqb_neq.
  tauto.
Qed.

Example listDirectory_example :
  map Entry.path
    (listDirectory
       (Readable [FileDirent "a.md";
                  DirDirent "src" (Readable [FileDirent "b.ts";
                                             DirDirent ".git" (Readable []);
                                             FileDirent ".env"]);
                  DirDirent ".astro" (Unreadable "EACCES");
                  DirDirent "node_modules" (Readable [FileDirent "x"]);
                  FileDirent "dist"; FileDirent "z"]) "")
  = ["a.md"; "src"; "src/b.ts"; ".astro"; "z"].
Proof. reflexivity. Qed.

(** ** The message listener *)

Lemma on_message_ping (data : Data.t) :
  JS.eq_lit (Data.action data) "ping" = true ->
  on_message (Object data) = Send pong Done.
Proof.
  intros H. unfold on_message, message_body, try_catch, bind, JSON_parse,
    ret, send. rewrite H. reflexivity.
Qed.

Lemma on_message_gate (data : Data.t) :
  JS.eq_lit (Data.action data) "ping" = false ->
  path_gate data = true ->
  on_message (Object data) = Send (invalid_path data) Done.
Proof.
  intros H G. unfold on_message, message_body, try_catch, bind, JSON_parse,
    ret, send. rewrite H, G. reflexivity.
Qed.

Lemma on_message_dispatched (data : Data.t) :
  JS.eq_lit (Data.action data) "ping" = false ->
  path_gate data = false ->
  on_message (Object data) = dispatched data.
Proof.
  intros H G. unfold on_message, message_body, try_catch, bind, JSON_parse,
    ret, send, dispatched. rewrite H, G. reflexivity.
Qed.

Lemma on_message_malformed (error : string) :
  on_message (Malformed error) = Send (error_response error) Done.
Proof. reflexivity. Qed.

Lemma path_gate_safe (data : Data.t) :
  isPathSafe (Data.path data) = true -> path_gate data = false.
Proof.
  intros H. unfold path_gate. rewrite H. apply andb_false_r.
Qed.

Lemma invalid_path_is_failure (data : Data.t) :
  is_failure (invalid_path data).
Proof.
  unfold is_failure, invalid_path.
  destruct (Data.action data), (Data.path data); simpl; eauto.
Qed.

(** C9: the listing leaves out every entry whose name begins with a dot,
    save [.astro] and [.devcontainer], and every [node_modules], [dist]
    and [.git]; it lists the entries in directory order, a sub-directory's
    own entry at once followed by the listing of its children; a
    directory that cannot be read lists as the empty sequence, and the
    [list] request is then still answered with [success: true]. *)
Theorem C9_listDirectory :
  (forall name,
      skipped name = true
      <-> (begins "." name /\ name <> ".astro" /\ name <> ".devcontainer")
          \/ name = "node_modules" \/ name = "dist" \/ name = ".git")
  /\ (forall dir basePath e,
        In e (listDirectory dir basePath) -> skipped (Entry.name e) = false)
  /\ (forall basePath, listDirectory (Readable []) basePath = [])
  /\ (forall entry rest basePath,
        listDirectory (Readable (entry :: rest)) basePath
        = contribution listDirectory basePath entry
          ++ listDirectory (Readable rest) basePath)
  /\ (forall message basePath,
        listDirectory (Unreadable message) basePath = [])
  /\ (forall path message,
        isPathSafe (Some path) = true ->
        exists targetPath,
          after_readdir (on_message (Object (path_request "list" path)))
            (Unreadable message)
          = Some (targetPath,
                  Send (obj [("action", jstr "list"); ("path", jstr path);
                             ("files", Some (JArray []));
                             ("success", jbool true)]) Done)).
Proof.
  split; [exact skipped_spec|].
  split; [exact listed_not_skipped|].
  split; [reflexivity|].
  split; [exact listDirectory_cons|].
  split; [reflexivity|].
  intros path message Hsafe.
  rewrite on_message_dispatched;
    [|reflexivity | apply path_gate_safe; exact Hsafe].
  unfold dispatched. simpl. unfold case_list, try_catch, bind. simpl.
  destruct (String.eqb path "."); simpl; eexists; reflexivity.
Qed.

(** C9 on a missing directory [src/missing]. *)
Lemma C9_witness :
  exists targetPath,
    after_readdir (on_message (Object (path_request "list" "src/missing")))
      (Unreadable MemFS.ENOENT)
    = Some (targetPath,
            Send (obj [("action", jstr "list"); ("path", jstr "src/missing");
                       ("files", Some (JArray []));
                       ("success", jbool true)]) Done).
Proof.
  apply (proj2 (proj2 (proj2 (proj2 (proj2 C9_listDirectory))))).
  reflexivity.
Defined.

(** ** The path gate *)

Lemma failure_is_failure (action : string)
  (identifying : list (string * option JSON)) (error : string) :
  (forall v, ~ In ("success", v) identifying) ->
  (forall v, ~ In ("error", v) identifying) ->
  is_failure (failure action identifying error).
Proof.
  intros Hs He. unfold is_failure, failure, obj, field. simpl.
  induction identifying as [|[key [v|]] rest IH]; simpl.
  - eauto.
  - destruct (String.eqb_spec key "success") as [->|_];
      [exfalso; eapply Hs; left; reflexivity|].
    destruct (String.eqb_spec key "error") as [->|_];
      [exfalso; eapply He; left; reflexivity|].
    apply IH; intros w Hw; [eapply Hs | eapply He]; right; exact Hw.
  - apply IH; intros w Hw; [eapply Hs | eapply He]; right; exact Hw.
Qed.

Lemma rename_refused (data : Data.t) :
  isPathSafe (Data.oldPath data) = false
  \/ isPathSafe (Data.newPath data) = false ->
  exists error,
    case_rename data (fun _ => Done)
      (fun error => Send (error_response error) Done)
    = Send (failure "rename"
              [("oldPath", jopt (Data.oldPath data));
               ("newPath", jopt (Data.newPath data))] error) Done.
Proof.
  intros Hunsafe. unfold case_rename, try_catch, bind, throw_if, throw, send.
  destruct (negb (JS.truthy (Data.oldPath data))
            || negb (JS.truthy (Data.newPath data)));
    [eexists; reflexivity|].
  assert (H : negb (isPathSafe (Data.oldPath data))
              || negb (isPathSafe (Data.newPath data)) = true)
    by (destruct Hunsafe as [-> | ->]; simpl; auto using orb_true_r).
  rewrite H. unfold ret. eexists; reflexivity.
Qed.

(** C1, as stated, fails on three requests that carry an unsafe
    path-bearing field: a [ping] is answered with [pong], which has no
    [success] field; a [git-diff] hands its [file] to the subprocess
    without validation and answers [success: true] when the subprocess
    succeeds; and an empty [path] passes the gate, so that [list] reads
    the working directory and answers [success: true]. *)
Lemma C1_counterexample :
  (In (Some "../../etc/passwd")
      (path_fields (path_request "ping" "../../etc/passwd"))
   /\ isPathSafe (Some "../../etc/passwd") = false
   /\ on_message (Object (path_request "ping" "../../etc/passwd"))
      = Send pong Done
   /\ field "success" pong = None)
  /\ (In (Some "../secret.txt")
         (path_fields (git_diff_request "../secret.txt"))
      /\ isPathSafe (Some "../secret.txt") = false
      /\ after_exec (on_message (Object (git_diff_request "../secret.txt")))
           (Ok ("", ""))
         = Some ("git diff -- " +++ dquote +++ "../secret.txt" +++ dquote,
                 Send (obj [("action", jstr "git-diff");
                            ("success", jbool true);
                            ("file", jstr "../secret.txt");
                            ("diff", jstr "")]) Done))
  /\ (In (Some "") (path_fields (path_request "list" ""))
      /\ isPathSafe (Some "") = false
      /\ after_readdir (on_message (Object (path_request "list" "")))
           (Readable [])
         = Some (JoinCwd "",
                 Send (obj [("action", jstr "list"); ("path", jstr "");
                            ("files", Some (JArray []));
                            ("success", jbool true)]) Done)).
Proof.
  repeat split; simpl; auto.
Qed.

(** C1, amended: a request other than [ping] whose [path] is a non-empty
    unsafe string, and a [rename] request whose [oldPath] or [newPath] is
    unsafe (absent and empty included), is answered with one response
    that has [success: false] and an [error] string, and no file system
    or subprocess call is made. *)
Theorem C1_unsafe_path_refused (data : Data.t) :
  JS.eq_lit (Data.action data) "ping" = false ->
  (JS.truthy (Data.path data) = true
   /\ isPathSafe (Data.path data) = false)
  \/ (Data.action data = Some "rename"
      /\ (isPathSafe (Data.oldPath data) = false
          \/ isPathSafe (Data.newPath data) = false)) ->
  Refuses (on_message (Object data))
  /\ NoCall (on_message (Object data)).
Proof.
  intros Hping Hcase.
  assert (Hgate : path_gate data = true -> Refuses (on_message (Object data))
                  /\ NoCall (on_message (Object data))).
  { intros G. rewrite (on_message_gate data Hping G). split; [|exact I].
    eexists; split; [reflexivity | apply invalid_path_is_failure]. }
  destruct Hcase as [[Htruthy Hunsafe] | [Hrename Hunsafe]].
  - apply Hgate. unfold path_gate. rewrite Htruthy, Hunsafe. reflexivity.
  - destruct (path_gate data) eqn:G; [auto|].
    rewrite (on_message_dispatched data Hping G).
    unfold dispatched. rewrite Hrename. simpl.
    destruct (rename_refused data Hunsafe) as [error ->].
    split; [|exact I]. eexists; split; [reflexivity|].
    apply failure_is_failure; intros v [H|[H|[]]]; discriminate.
Qed.

(** C1 on [{ action: 'read', path: '../../etc/passwd' }]. *)
Lemma C1_witness :
  Refuses (on_message (Object (path_request "read" "../../etc/passwd")))
  /\ NoCall (on_message (Object (path_request "read" "../../etc/passwd"))).
Proof.
  apply (C1_unsafe_path_refused (path_request "read" "../../etc/passwd")).
  - reflexivity.
  - left. split; reflexivity.
Defined.

Example rename_unsafe_target_refused :
  on_message
    (Object (Data.mk (Some "rename") None (Some "a.txt")
               (Some "../b.txt") None None None None None))
  = Send (obj [("action", jstr "rename"); ("oldPath", jstr "a.txt");
               ("newPath", jstr "../b.txt"); ("success", jbool false);
               ("error", jstr "Invalid path")]) Done.
Proof. reflexivity. Qed.

(** ** The [git] allow-list *)

(** [command.split(' ')[0]] is the part of the command line before its
    first space. *)
Lemma first_split (sep : ascii) (s : string) :
  exists token,
    JS.first (JS.split sep s) = Some token
    /\ has_char sep token = false
    /\ (s = token \/ exists rest, s = token +++ String sep rest).
Proof.
  induction s as [|c s (token & Hfirst & Hfree & Hshape)]; simpl.
  - exists "". auto.
  - destruct (Ascii.eqb_spec c sep) as [->|Hc].
    + exists "". repeat split. right. exists s. reflexivity.
    + destruct (JS.split sep s) as [|w ws]; [discriminate|].
      injection Hfirst as ->. exists (String c token). repeat split.
      * unfold has_char in *. simpl. rewrite Hfree, orb_false_r.
        apply Ascii.eqb_neq. congruence.
      * destruct Hshape as [->|[rest ->]]; [left | right; exists rest];
          reflexivity.
Qed.

(** C4, as stated, fails: the command line [status<TAB>--short] has the
    allow-listed [status] as its first white-space-delimited token, yet
    it is refused and nothing reaches the shell, because the code cuts
    the command at space characters only. *)
Lemma C4_counterexample :
  array_includes allowedCommands
    (Some (first_whitespace_token ("status" +++ TAB +++ "--short"))) = true
  /\ on_message (Object (git_request ("status" +++ TAB +++ "--short")))
     = Send (failure "git" [] "Git command not allowed") Done.
Proof. split; reflexivity. Qed.

(** C4, amended: with the first token taken as the part of the command
    string before its first space character, a [git] request whose token
    is not on the allow-list is answered with [success: false] and the
    error [Git command not allowed] and no subprocess runs; when the
    token is on the list, the whole command string is appended to [git ]
    and run by the shell as it is. *)
Theorem C4_git_allow_list (data : Data.t) (command : string) :
  Data.action data = Some "git" ->
  path_gate data = false ->
  Data.command data = Some command ->
  exists token,
    JS.first (JS.split " " command) = Some token
    /\ has_char " " token = false
    /\ (command = token \/ exists rest, command = token +++ String " " rest)
    /\ (In token allowedCommands ->
        forall r,
          after_exec (on_message (Object data)) r
          = Some ("git " +++ command,
                  Send (match r with
                        | Ok out =>
                            obj [("action", jstr "git");
                                 ("success", jbool true);
                                 ("stdout", jstr (fst out));
                                 ("stderr", jstr (snd out))]
                        | Throws error => failure "git" [] error
                        end) Done))
    /\ (~ In token allowedCommands ->
        on_message (Object data)
        = Send (failure "git" [] "Git command not allowed") Done).
Proof.
  intros Haction Hgate Hcommand.
  destruct (first_split " " command) as (token & Hfirst & Hfree & Hshape).
  exists token. repeat (split; [assumption|]).
  rewrite on_message_dispatched by (rewrite ?Haction; auto).
  unfold dispatched. rewrite Haction. simpl.
  unfold case_git, try_catch, bind, throw_if, throw, ret, await, send.
  rewrite Hcommand, Hfirst.
  assert (Hin : array_includes allowedCommands (Some token) = true
                <-> In token allowedCommands).
  { unfold array_includes. rewrite existsb_exists. split.
    - intros (x & Hx & E). apply String.eqb_eq in E. subst. exact Hx.
    - intros Hx. exists token. split; [exact Hx | apply String.eqb_refl]. }
  destruct (array_includes allowedCommands (Some token)); split.
  - intros _ [out|error]; reflexivity.
  - intros Hnot. exfalso. apply Hnot, Hin. reflexivity.
  - intros Hx. apply Hin in Hx. discriminate.
  - reflexivity.
Qed.

(** C4 on the scenario of the specification, [rm -rf /]. *)
Lemma C4_witness :
  exists token,
    JS.first (JS.split " " "rm -rf /") = Some token
    /\ has_char " " token = false
    /\ ("rm -rf /" = token \/ exists rest, "rm -rf /" = token +++ String " " rest)
    /\ (In token allowedCommands ->
        forall r,
          after_exec (on_message (Object (git_request "rm -rf /"))) r
          = Some ("git " +++ "rm -rf /",
                  Send (match r with
                        | Ok out =>
                            obj [("action", jstr "git");
                                 ("success", jbool true);
                                 ("stdout", jstr (fst out));
                                 ("stderr", jstr (snd out))]
                        | Throws error => failure "git" [] error
                        end) Done))
    /\ (~ In token allowedCommands ->
        on_message (Object (git_request "rm -rf /"))
        = Send (failure "git" [] "Git command not allowed") Done).
Proof.
  apply (C4_git_allow_list (git_request "rm -rf /") "rm -rf /");
    reflexivity.
Defined.

Example git_rm_refused :
  on_message (Object (git_request "rm -rf /"))
  = Send (obj [("action", jstr "git"); ("success", jbool false);
               ("error", jstr "Git command not allowed")]) Done.
Proof. reflexivity. Qed.

Example git_status_runs :
  after_exec (on_message (Object (git_request "status -s; id")))
    (Ok ("", ""))
  = Some ("git status -s; id",
          Send (obj [("action", jstr "git"); ("success", jbool true);
                     ("stdout", jstr ""); ("stderr", jstr "")]) Done).
Proof. reflexivity. Qed.

(** ** Subprocess failures of the git handlers *)

Ltac unfold_handler :=
  unfold dispatched; simpl;
  unfold case_read, case_write, case_list, case_delete,
    case_rename, case_create, case_mkdir, case_git, case_gitStatus,
    case_git_status, case_git_diff, case_git_commit, case_git_push,
    case_git_pull_force, case_exec, touch_tailwind, path_dirname,
    Buffer_from_base64, try_catch, bind, throw_if, required, throw, ret,
    await, await_total, send;
  simpl.

Ltac crunch :=
  repeat match goal with
    | |- forall _, _ => intro
    | |- _ /\ _ => split
    | |- True => exact I
    | |- exists msg, Send _ Done = Send msg Done /\ _ =>
        eexists; split; [reflexivity|]
    | |- is_failure _ =>
        unfold is_failure, failure, error_response, obj, field; simpl;
        now eauto
    | |- no_changes _ => reflexivity
    | |- context [match ?x with _ => _ end] => destruct x; simpl
    end.

Lemma gate_response_harmless (P : JSON -> Prop) (data : Data.t) :
  ExecFailure P (Send (invalid_path data) Done)
  /\ NeverCloses (Send (invalid_path data) Done).
Proof. split; exact I. Qed.

(** C5, as stated, fails for [gitStatus]: when [git status] fails the
    handler answers [success: true] with no changes and no [error]. *)
Lemma C5_counterexample :
  after_exec (on_message (Object (request "gitStatus")))
    (Throws "fatal: not a git repository")
  = Some ("git status --porcelain",
          Send (obj [("action", jstr "gitStatus"); ("success", jbool true);
                     ("changes", Some (JNumber 0));
                     ("files", Some (JArray []))]) Done)
  /\ ~ ExecFailure is_failure (on_message (Object (request "gitStatus"))).
Proof.
  split; [reflexivity|].
  simpl. intros [_ H].
  destruct (H "fatal: not a git repository") as (msg & E & Hs & _).
  injection E as <-. discriminate.
Qed.

(** C5, amended: for [git], [git-status], [git-diff], [git-commit],
    [git-push] and [git-pull-force], as soon as a subprocess of the
    handler fails the handler sends one response with [success: false]
    and an [error] string; [gitStatus] instead answers a failed
    subprocess with [success: true], [changes: 0] and no files; in both
    cases the handler never closes the connection. *)
Theorem C5_git_failures (data : Data.t) :
  (In (Data.action data) (map Some reporting_git_actions) ->
   ExecFailure is_failure (on_message (Object data))
   /\ NeverCloses (on_message (Object data)))
  /\ (Data.action data = Some "gitStatus" ->
      ExecFailure no_changes (on_message (Object data))
      /\ NeverCloses (on_message (Object data))).
Proof.
  split.
  - intros Hin.
    destruct (path_gate data) eqn:G.
    + rewrite on_message_gate;
        [apply gate_response_harmless | | exact G].
      simpl in Hin. repeat (destruct Hin as [<-|Hin]; [reflexivity|]).
      destruct Hin.
    + rewrite on_message_dispatched;
        [| simpl in Hin; repeat (destruct Hin as [<-|Hin]; [reflexivity|]);
           destruct Hin
         | exact G].
      unfold dispatched. simpl in Hin.
      repeat (destruct Hin as [<-|Hin];
              [destruct data; unfold_handler; crunch|]).
      destruct Hin.
  - intros Haction.
    destruct (path_gate data) eqn:G.
    + rewrite on_message_gate;
        [apply gate_response_harmless | rewrite Haction; reflexivity
         | exact G].
    + rewrite on_message_dispatched;
        [| rewrite Haction; reflexivity | exact G].
      unfold dispatched. rewrite Haction. unfold_handler. crunch.
Qed.

(** C5 on a [git-push] whose subprocess fails. *)
Lemma C5_witness :
  ExecFailure is_failure (on_message (Object (request "git-push")))
  /\ NeverCloses (on_message (Object (request "git-push"))).
Proof.
  apply (proj1 (C5_git_failures (request "git-push"))).
  simpl. auto 6.
Defined.

Example git_push_failure :
  after_exec (on_message (Object (request "git-push")))
    (Throws "fatal: unable to access remote")
  = Some ("git push",
          Send (obj [("action", jstr "git-push"); ("success", jbool false);
                     ("error", jstr "fatal: unable to access remote")])
               Done).
Proof. reflexivity. Qed.

(** ** Parsing of [git status --porcelain] *)






Example typed_changes_example :
  typed_changes ("M  a.txt" +++ LF +++ "?? b.txt" +++ LF +++ "AD c.txt" +++ LF)
  = JArray
      [obj [("file", jstr "a.txt"); ("status", jstr "M ");
            ("type", jstr "modified")];
       obj [("file", jstr "b.txt"); ("status", jstr "??");
            ("type", jstr "untracked")];
       obj [("file", jstr "c.txt"); ("status", jstr "AD");
            ("type", jstr "added")]].
Proof. reflexivity. Qed.

(** ** Shape of the outbound messages *)

Ltac shape :=
  unfold Wellformed, has_action, has_success, failure, error_response,
    invalid_path, field, obj, jstr, jbool, jopt, option_map;
  cbn [object lookup app String.eqb Ascii.eqb Bool.eqb];
  repeat split;
  try (eexists; reflexivity);
  try (intros; (discriminate || (eexists; reflexivity))).

Ltac each_run :=
  repeat match goal with
    | |- forall _, _ => intro
    | |- AllSent _ _ => progress cbn [AllSent]
    | |- _ /\ _ => split
    | |- True => exact I
    | |- context [jopt ?x] => is_var x; destruct x
    | |- _ \/ Wellformed _ => right; now shape
    | |- context [match ?x with _ => _ end] => destruct x; simpl
    end.

Lemma switch_all_sent (P : JSON -> Prop) (k : unit -> Prog)
  (h : string -> Prog) (table : list (string * (Data.t -> M unit))) :
  Forall (fun c => forall data, AllSent P (snd c data k h)) table ->
  AllSent P (k tt) ->
  forall action data, AllSent P (switch table action data k h).
Proof.
  intros Htable Hk action data.
  induction Htable as [|[label body] rest Hbody _ IH]; simpl.
  - exact Hk.
  - destruct (JS.eq_lit action label); [apply Hbody | exact IH].
Qed.

Lemma cases_wellformed :
  Forall (fun c =>
            forall data,
              AllSent (fun msg => msg = pong \/ Wellformed msg)
                (snd c data (fun _ => Done)
                   (fun error => Send (error_response error) Done)))
         cases.
Proof.
  unfold cases.
  repeat (constructor; [intros data; destruct data; simpl; unfold_handler;
                        each_run|]).
  constructor.
Qed.

(** C7, as stated, fails: the answer to [ping] carries no [success]
    field. *)
Lemma C7_counterexample :
  on_message (Object (request "ping"))
  = Send (obj [("action", jstr "pong")]) Done
  /\ ~ AllSent Wellformed (on_message (Object (request "ping"))).
Proof.
  split; [reflexivity|].
  simpl. intros [(_ & [b Hb] & _) _]. discriminate.
Qed.

(** C7, amended: every message the server sends in answer to a frame
    whose request names its action carries an [action] string; every
    such message other than the [pong] answer, which carries nothing
    else, also carries a boolean [success], and an [error] string
    whenever [success] is false. *)
Theorem C7_outbound_shape (message : Inbound) :
  names_action message ->
  AllSent (fun msg => has_action msg /\ (msg = pong \/ Wellformed msg))
    (on_message message).
Proof.
  intros Hnamed.
  enough (H : AllSent (fun msg => msg = pong \/ Wellformed msg)
                (on_message message)).
  { revert H. generalize (on_message message). intros p.
    induction p as [|msg k IH|code reason k IH|X e k IH]; simpl; auto.
    intros [[->|Hw] Hk]; split; auto; split; auto.
    - eexists; reflexivity.
    - apply Hw. }
  destruct message as [error|data].
  - rewrite on_message_malformed. each_run.
  - destruct (JS.eq_lit (Data.action data) "ping") eqn:Hping.
    + rewrite on_message_ping by exact Hping. simpl. auto.
    + destruct (path_gate data) eqn:G.
      * rewrite on_message_gate by assumption.
        simpl in Hnamed. destruct data as [[a|] [p|] ? ? ? ? ? ? ?];
          try contradiction; each_run.
      * rewrite on_message_dispatched by assumption.
        apply switch_all_sent; [exact cases_wellformed | exact I].
Qed.

(** C7 on a [read] of a file that may or may not exist. *)
Lemma C7_witness :
  AllSent (fun msg => has_action msg /\ (msg = pong \/ Wellformed msg))
    (on_message (Object (path_request "read" "README.md"))).
Proof.
  apply (C7_outbound_shape (Object (path_request "read" "README.md"))).
  simpl. discriminate.
Defined.

(** ** Authentication of the handshake *)

Section Handshake.

Variable URL_token : string -> Result (option string).
Variable jwt_verify : string -> Result Payload.t.

Lemma unauthenticated_null (url : string) :
  unauthenticated URL_token jwt_verify url ->
  authenticateConnection URL_token jwt_verify url = None.
Proof.
  unfold authenticateConnection, verifyToken.
  intros [-> | (token & error & -> & Hverify)]; [reflexivity|].
  destruct (String.eqb token ""); [reflexivity|].
  rewrite Hverify. reflexivity.
Qed.

End Handshake.

(** C3: when the handshake carries no token, or a token whose
    verification fails, the only thing the server does on the socket is
    to close it with code 1008 and reason [Unauthorized]; no listener is
    attached, so whatever frame arrives afterwards, nothing is sent and
    no handler runs. *)
Theorem C3_unauthenticated_closed
  (URL_token : string -> Result (option string))
  (jwt_verify : string -> Result Payload.t) (url : string) :
  unauthenticated URL_token jwt_verify url ->
  on_connection URL_token jwt_verify url
  = (Close 1008 "Unauthorized" Done, Refused)
  /\ Silent (fst (on_connection URL_token jwt_verify url))
  /\ forall message,
       on_frame (snd (on_connection URL_token jwt_verify url)) message
       = Done.
Proof.
  intros H. unfold on_connection.
  rewrite (unauthenticated_null _ _ _ H). simpl. auto.
Qed.

(** C3 on a handshake with a forged token. *)
Lemma C3_witness :
  on_connection Demo.URL_token Demo.jwt_verify "/?token=forged"
  = (Close 1008 "Unauthorized" Done, Refused)
  /\ Silent (fst (on_connection Demo.URL_token Demo.jwt_verify
                    "/?token=forged"))
  /\ forall message,
       on_frame (snd (on_connection Demo.URL_token Demo.jwt_verify
                        "/?token=forged")) message
       = Done.
Proof.
  apply (C3_unauthenticated_closed Demo.URL_token Demo.jwt_verify
           "/?token=forged").
  right. exists "forged", "invalid signature". split; reflexivity.
Defined.

Example handshake_without_token :
  on_connection Demo.URL_token Demo.jwt_verify "/"
  = (Close 1008 "Unauthorized" Done, Refused).
Proof. reflexivity. Qed.

Example handshake_with_empty_token :
  on_connection Demo.URL_token Demo.jwt_verify "/?token="
  = (Close 1008 "Unauthorized" Done, Refused).
Proof. reflexivity. Qed.

Example handshake_accepted :
  on_connection Demo.URL_token Demo.jwt_verify "/?token=signed"
  = (Done,
     Serving (AuthData.mk (Some "u1") "unknown" (Some "r1")
                (Some "portfolio"))).
Proof. reflexivity. Qed.

(** ** Base64 *)

Lemma value_char (n : nat) :
  (n < 64)%nat ->
  Base64.value (Base64.char (N.of_nat n)) = Some (N.of_nat n)
  /\ Ascii.eqb (Base64.char (N.of_nat n)) "=" = false.
Proof.
  intros Hn.
  do 64 (destruct n as [|n]; [split; vm_compute; reflexivity|]).
  lia.
Qed.

Lemma sextets_char (v : N) (s : string) :
  (v < 64)%N ->
  Base64.sextets (String (Base64.char v) s) = v :: Base64.sextets s.
Proof.
  intros Hv.
  destruct (value_char (N.to_nat v)) as [Hval Hpad]; [lia|].
  rewrite N2Nat.id in Hval, Hpad.
  cbn [Base64.sextets]. rewrite Hpad, Hval. reflexivity.
Qed.

Lemma byte_of_to_N (b : byte) : Base64.byte_of (Byte.to_N b) = b.
Proof.
  unfold Base64.byte_of.
  pose proof (Byte.to_N_bounded b) as Hb.
  rewrite N.mod_small by lia.
  rewrite Byte.of_to_N. reflexivity.
Qed.

Ltac div_mod_lia :=
  zify; Z.to_euclidean_division_equations; lia.

(** The four six-bit values of three bytes, and the bytes back. *)
Lemma sextets_in_range (x y z : N) :
  (x < 256)%N -> (y < 256)%N -> (z < 256)%N ->
  (x / 4 < 64 /\ x mod 4 * 16 + y / 16 < 64
   /\ y mod 16 * 4 + z / 64 < 64 /\ z mod 64 < 64
   /\ x mod 4 * 16 < 64 /\ y mod 16 * 4 < 64)%N.
Proof. intros. repeat split; div_mod_lia. Qed.

Lemma first_byte (x y : N) :
  (x < 256)%N -> (y < 256)%N ->
  (x / 4 * 4 + (x mod 4 * 16 + y / 16) / 16 = x)%N.
Proof. intros. div_mod_lia. Qed.

Lemma second_byte (x y z : N) :
  (x < 256)%N -> (y < 256)%N -> (z < 256)%N ->
  ((x mod 4 * 16 + y / 16) mod 16 * 16 + (y mod 16 * 4 + z / 64) / 4
   = y)%N.
Proof. intros. div_mod_lia. Qed.

Lemma third_byte (y z : N) :
  (y < 256)%N -> (z < 256)%N ->
  ((y mod 16 * 4 + z / 64) mod 4 * 64 + z mod 64 = z)%N.
Proof. intros. div_mod_lia. Qed.

Lemma list_induction_by_3 {A : Type} (P : list A -> Prop) :
  P [] -> (forall a, P [a]) -> (forall a b, P [a; b]) ->
  (forall a b c l, P l -> P (a :: b :: c :: l)) ->
  forall l, P l.
Proof.
  intros H0 H1 H2 H3.
  fix IH 1.
  intros [|a [|b [|c l]]];
    [exact H0 | apply H1 | apply H2 | apply H3; apply IH].
Qed.

(** Decoding what the encoder wrote gives the bytes back. *)
Lemma decode_encode (buffer : list byte) :
  Base64.decode (Base64.encode buffer) = buffer.
Proof.
  unfold Base64.decode.
  induction buffer as [|a|a b|a b c rest IH] using list_induction_by_3.
  - reflexivity.
  - pose proof (Byte.to_N_bounded a) as Ha.
    destruct (sextets_in_range (Byte.to_N a) 0 0) as (? & _ & _ & _ & ? & _);
      try lia.
    cbn [Base64.encode]. rewrite !sextets_char by assumption.
    cbn [Base64.sextets Ascii.eqb Bool.eqb Base64.from_sextets].
    pose proof (first_byte (Byte.to_N a) 0) as E.
    rewrite N.add_0_r in E. rewrite E by lia.
    rewrite byte_of_to_N. reflexivity.
  - pose proof (Byte.to_N_bounded a) as Ha.
    pose proof (Byte.to_N_bounded b) as Hb.
    destruct (sextets_in_range (Byte.to_N a) (Byte.to_N b) 0)
      as (? & ? & _ & _ & _ & ?); try lia.
    cbn [Base64.encode]. rewrite !sextets_char by assumption.
    cbn [Base64.sextets Ascii.eqb Bool.eqb Base64.from_sextets].
    rewrite first_byte by lia.
    pose proof (second_byte (Byte.to_N a) (Byte.to_N b) 0) as E.
    rewrite N.add_0_r in E. rewrite E by lia.
    rewrite !byte_of_to_N. reflexivity.
  - pose proof (Byte.to_N_bounded a) as Ha.
    pose proof (Byte.to_N_bounded b) as Hb.
    pose proof (Byte.to_N_bounded c) as Hc.
    destruct (sextets_in_range (Byte.to_N a) (Byte.to_N b) (Byte.to_N c))
      as (? & ? & ? & ? & _ & _); try lia.
    cbn [Base64.encode]. rewrite !sextets_char by assumption.
    cbn [Base64.from_sextets].
    rewrite first_byte, second_byte, third_byte by lia.
    rewrite !byte_of_to_N, IH. reflexivity.
Qed.

Example encode_Man :
  Base64.encode ["M"%byte; "a"%byte; "n"%byte] = "TWFu"
  /\ Base64.encode ["M"%byte; "a"%byte] = "TWE="
  /\ Base64.encode ["M"%byte] = "TQ==".
Proof. repeat split. Qed.

(** ** Writing and reading back in base64 *)

Section Round_trip.

(** Any file system in which a file reads back as it was written, and in
    which touching a file's times changes no file's content. *)
Variable W : World.

Hypothesis read_after_write :
  forall (w w' : state W) (p : string) (buffer : list byte),
    perform W w (fs_writeFile (Lit p) buffer) = (w', Ok tt) ->
    snd (perform W w' (fs_readFile (Lit p))) = Ok buffer.

Hypothesis utimes_keeps_content :
  forall (w w' : state W) (q p : PathArg) (r : Result unit),
    perform W w (fs_utimes_now q) = (w', r) ->
    snd (perform W w' (fs_readFile p)) = snd (perform W w (fs_readFile p)).

Ltac refuted H :=
  apply (f_equal snd) in H;
  unfold failure, write_ok, obj in H; simpl in H; discriminate.

Lemma run_read_base64 (w : state W) (p : string) (buffer : list byte) :
  isPathSafe (Some p) = true ->
  snd (perform W w (fs_readFile (Lit p))) = Ok buffer ->
  snd (run W w (on_message (Object (base64_request "read" p None))))
  = [Sent (read_ok p (Base64.encode buffer) "base64")].
Proof.
  intros Hsafe Hread.
  rewrite on_message_dispatched;
    [|reflexivity | apply path_gate_safe; exact Hsafe].
  unfold_handler.
  destruct (perform W w (fs_readFile (Lit p))) as [w' r].
  simpl in Hread. subst r. reflexivity.
Qed.

Lemma run_write_base64 (w w1 : state W) (p : string) (buffer : list byte) :
  isPathSafe (Some p) = true ->
  run W w (on_message
             (Object (base64_request "write" p
                        (Some (Base64.encode buffer)))))
  = (w1, [Sent (write_ok p)]) ->
  snd (perform W w1 (fs_readFile (Lit p))) = Ok buffer.
Proof.
  intros Hsafe.
  rewrite on_message_dispatched;
    [|reflexivity | apply path_gate_safe; exact Hsafe].
  unfold_handler. rewrite decode_encode.
  destruct (perform W w (fs_mkdir_recursive (Dirname p)))
    as [wa [[]|error]]; cbn [run]; [|intros H; refuted H].
  destruct (perform W wa (fs_writeFile (Lit p) buffer))
    as [wb [[]|error]] eqn:Hwrite; cbn [run]; [|intros H; refuted H].
  apply read_after_write in Hwrite.
  match goal with
  | |- context [if ?touches then _ else _] => destruct touches
  end; cbn [run].
  - destruct (perform W wb (fs_utimes_now (Lit "src/styles/global.css")))
      as [wc r] eqn:Htouch.
    apply (utimes_keeps_content _ _ _ (Lit p)) in Htouch.
    destruct r as [[]|error]; cbn [run]; intros H;
      apply (f_equal fst) in H; simpl in H; subst w1; congruence.
  - intros H. apply (f_equal fst) in H. simpl in H. subst w1. exact Hwrite.
Qed.

(** C8: on such a file system, once a [write] of the base64 text of the
    bytes [C] to a safe path has been answered with success, a [read] of
    the same path with encoding [base64] is answered with that same
    base64 text, and the answer names the encoding [base64]. *)
Theorem C8_base64_round_trip (C : list byte) (p : string)
  (w w1 : state W) :
  isPathSafe (Some p) = true ->
  run W w (on_message
             (Object (base64_request "write" p (Some (Base64.encode C)))))
  = (w1, [Sent (write_ok p)]) ->
  snd (run W w1 (on_message (Object (base64_request "read" p None))))
  = [Sent (read_ok p (Base64.encode C) "base64")].
Proof.
  intros Hsafe Hwrite.
  apply run_read_base64; [exact Hsafe|].
  eapply run_write_base64; eassumption.
Qed.

End Round_trip.

Lemma MemFS_read_after_write (w w' : state MemFS.world) (p : string)
  (buffer : list byte) :
  perform MemFS.world w (fs_writeFile (Lit p) buffer) = (w', Ok tt) ->
  snd (perform MemFS.world w' (fs_readFile (Lit p))) = Ok buffer.
Proof.
  simpl. intros H. injection H as <-. simpl.
  rewrite String.eqb_refl. reflexivity.
Qed.

Lemma MemFS_utimes_keeps_content (w w' : state MemFS.world)
  (q p : PathArg) (r : Result unit) :
  perform MemFS.world w (fs_utimes_now q) = (w', r) ->
  snd (perform MemFS.world w' (fs_readFile p))
  = snd (perform MemFS.world w (fs_readFile p)).
Proof. simpl. intros H. injection H as <- _. reflexivity. Qed.

(** C8 on the in-memory file system, for the three bytes [Man] written
    to [public/logo.astro]. *)
Lemma C8_witness :
  snd (run MemFS.world
         [("public/logo.astro", ["M"%byte; "a"%byte; "n"%byte])]
         (on_message
            (Object (base64_request "read" "public/logo.astro" None))))
  = [Sent (read_ok "public/logo.astro"
             (Base64.encode ["M"%byte; "a"%byte; "n"%byte]) "base64")].
Proof.
  apply (C8_base64_round_trip MemFS.world MemFS_read_after_write
           MemFS_utimes_keeps_content ["M"%byte; "a"%byte; "n"%byte]
           "public/logo.astro" []).
  - reflexivity.
  - reflexivity.
Defined.

(* ================================================================== *)
(** * Further properties of the server *)

(** ** Process start *)

(** X1: the server starts listening (on port 8080, with a payload limit
    of 50 MiB) exactly when the configured key holds the text
    [BEGIN PUBLIC KEY] or [BEGIN RSA PUBLIC KEY]; with no key, an empty
    key or any other key the process exits with code 1. *)
Theorem X1_startup_requires_pem_key (JWT_PUBLIC_KEY : option string) :
  (startup JWT_PUBLIC_KEY = Listening 8080 52428800
   <-> exists key,
         JWT_PUBLIC_KEY = Some key
         /\ (occurs "BEGIN PUBLIC KEY" key
             \/ occurs "BEGIN RSA PUBLIC KEY" key))
  /\ (startup JWT_PUBLIC_KEY = Listening 8080 52428800
      \/ startup JWT_PUBLIC_KEY = Exit 1).
Proof.
  unfold startup.
  destruct JWT_PUBLIC_KEY as [key|].
  2: { split; [|auto]. split; [discriminate | intros (k & H & _); discriminate]. }
  destruct (String.eqb_spec key "") as [->|Hne].
  { split; [|auto]. split; [discriminate|].
    intros (k & H & [Ho|Ho]); injection H as <-;
      apply includes_occurs in Ho; discriminate. }
  destruct (JS.includes "BEGIN PUBLIC KEY" key) eqn:Hpub;
    destruct (JS.includes "BEGIN RSA PUBLIC KEY" key) eqn:Hrsa; simpl;
    (split; [|auto]); split;
    try reflexivity; try discriminate;
    try (intros _; exists key; split; [reflexivity|];
         (left; apply includes_occurs; assumption)
         || (right; apply includes_occurs; assumption)).
  intros (k & H & [Ho|Ho]); injection H as <-;
    apply includes_occurs in Ho; congruence.
Qed.

(** ** Authentication *)

(** X2: a handshake is accepted exactly when its URL carries a non-empty
    token that verifies; the identity stored on the socket is then the
    token's [userId], [repoId] and [repoName] and its [username], with
    [unknown] standing in for a missing or empty one.  Every other
    handshake, a URL that does not parse included, is closed with 1008. *)
Theorem X2_accepted_handshake
  (URL_token : string -> Result (option string))
  (jwt_verify : string -> Result Payload.t) (url : string) :
  (forall auth,
      on_connection URL_token jwt_verify url = (Done, Serving auth)
      <-> exists token payload,
            URL_token url = Ok (Some token) /\ token <> ""
            /\ jwt_verify token = Ok payload
            /\ auth = AuthData.mk (Payload.userId payload)
                        (JS.or_default (Payload.username payload) "unknown")
                        (Payload.repoId payload) (Payload.repoName payload))
  /\ ((exists auth,
          on_connection URL_token jwt_verify url = (Done, Serving auth))
      \/ on_connection URL_token jwt_verify url
         = (Close 1008 "Unauthorized" Done, Refused)).
Proof.
  unfold on_connection, authenticateConnection, verifyToken.
  destruct (URL_token url) as [[token|]|error].
  - destruct (String.eqb_spec token "") as [->|Hne].
    + split; [|auto]. intros auth. split; [discriminate|].
      intros (t & p & H & Ht & _). injection H as <-. contradiction.
    + destruct (jwt_verify token) as [payload|error] eqn:Hv.
      * split; [|left; eexists; reflexivity]. intros auth. split.
        -- intros H. injection H as <-. exists token, payload. auto.
        -- intros (t & p & H & _ & Hp & ->). injection H as <-.
           rewrite Hv in Hp. injection Hp as <-. reflexivity.
      * split; [|auto]. intros auth. split; [discriminate|].
        intros (t & p & H & _ & Hp & _). injection H as <-. congruence.
  - split; [|auto]. intros auth. split; [discriminate|].
    intros (t & p & H & _). discriminate.
  - split; [|auto]. intros auth. split; [discriminate|].
    intros (t & p & H & _). discriminate.
Qed.

(** X3: the user name stored on a served socket is never empty. *)
Theorem X3_username_never_empty
  (URL_token : string -> Result (option string))
  (jwt_verify : string -> Result Payload.t) (url : string)
  (auth : AuthData.t) :
  snd (on_connection URL_token jwt_verify url) = Serving auth ->
  AuthData.username auth <> "".
Proof.
  unfold on_connection, authenticateConnection, verifyToken.
  destruct (URL_token url) as [[token|]|error]; try discriminate.
  destruct (String.eqb token ""); [discriminate|].
  destruct (jwt_verify token) as [payload|error]; [|discriminate].
  simpl. intros H. injection H as <-. simpl.
  unfold JS.or_default. destruct (Payload.username payload) as [name|];
    [|discriminate].
  destruct (String.eqb_spec name ""); [discriminate | assumption].
Qed.

(** X3 on a verified token whose payload has no user name. *)
Lemma X3_witness :
  AuthData.username
    (AuthData.mk (Some "u1") "unknown" (Some "r1") (Some "portfolio"))
  <> "".
Proof.
  apply (X3_username_never_empty Demo.URL_token Demo.jwt_verify
           "/?token=signed").
  reflexivity.
Defined.

(** ** Connection health *)

Lemma unanswered_cons (e : Heartbeat.Event) (events : list Heartbeat.Event) :
  unanswered (e :: events)
  <-> e = Heartbeat.interval
      \/ (e <> Heartbeat.pong_frame /\ e <> Heartbeat.close
          /\ e <> Heartbeat.error /\ unanswered events).
Proof.
  unfold unanswered, undisturbed. split.
  - intros ([|e' b] & c & E & Hpong & Hclose & Herror); simpl in E;
      injection E as -> E.
    + left. reflexivity.
    + right. simpl in *. repeat split; try (intros ->; tauto).
      exists b, c. tauto.
  - intros [-> | (Hp & Hc & He & b & c & -> & Hpong & Hclose & Herror)].
    + exists [], events. simpl. tauto.
    + exists (e :: b), c. simpl. repeat split; try reflexivity;
        intros [H|H]; auto.
Qed.

Lemma missed_heartbeat_cons (e : Heartbeat.Event)
  (events : list Heartbeat.Event) :
  missed_heartbeat (e :: events)
  <-> (e = Heartbeat.interval /\ unanswered events)
      \/ (e <> Heartbeat.close /\ e <> Heartbeat.error
          /\ missed_heartbeat events).
Proof.
  unfold missed_heartbeat, unanswered, undisturbed. split.
  - intros ([|e' a] & b & c & E & Hpong & Hclose & Herror); simpl in E;
      injection E as -> E.
    + left. split; [reflexivity|]. exists b, c. simpl in *. tauto.
    + right. simpl in *. repeat split; try (intros ->; tauto).
      exists a, b, c. tauto.
  - intros [[-> (b & c & -> & Hpong & Hclose & Herror)]
           | (Hc & He & a & b & c & -> & Hpong & Hclose & Herror)].
    + exists [], b, c. simpl. tauto.
    + exists (e :: a), b, c. simpl. repeat split; try reflexivity;
        try assumption; intros [H|H]; auto.
Qed.

Lemma terminate_general (events : list Heartbeat.Event) :
  forall s,
    In Heartbeat.ws_terminate (snd (Heartbeat.run s events))
    <-> Heartbeat.armed s = true
        /\ ((Heartbeat.isAlive s = false /\ unanswered events)
            \/ missed_heartbeat events).
Proof.
  induction events as [|e events IH]; intros [alive armed].
  - simpl. split; [intros []|].
    intros (_ & [(_ & b & c & E & _) | (a & b & c & E & _)]);
      [destruct b | destruct a]; discriminate.
  - cbn [Heartbeat.run].
    destruct (Heartbeat.step (Heartbeat.mk alive armed) e)
      as [s1 done] eqn:Hstep.
    specialize (IH s1).
    destruct (Heartbeat.run s1 events) as [s2 later]. cbn [snd] in *.
    rewrite in_app_iff, IH, unanswered_cons, missed_heartbeat_cons.
    destruct e, alive, armed; simpl in Hstep; injection Hstep as <- <-;
      simpl; intuition (try discriminate; try congruence).
Qed.

(** X4: on a served connection the server terminates the socket exactly
    when the interval fires twice with no [pong] frame in between, the
    socket not having closed or failed before the second firing. *)
Theorem X4_terminated_iff_missed_heartbeat
  (events : list Heartbeat.Event) :
  In Heartbeat.ws_terminate (snd (Heartbeat.run Heartbeat.initial events))
  <-> missed_heartbeat events.
Proof.
  rewrite terminate_general. simpl. intuition discriminate.
Qed.



Example heartbeat_answered :
  snd (Heartbeat.run Heartbeat.initial
         [Heartbeat.interval; Heartbeat.pong_frame; Heartbeat.interval;
          Heartbeat.pong_frame; Heartbeat.interval])
  = [Heartbeat.ws_ping; Heartbeat.ws_ping; Heartbeat.ws_ping].
Proof. reflexivity. Qed.

Example heartbeat_missed :
  Heartbeat.run Heartbeat.initial
    [Heartbeat.interval; Heartbeat.ping_frame; Heartbeat.interval;
     Heartbeat.interval]
  = (Heartbeat.mk false false,
     [Heartbeat.ws_ping; Heartbeat.ws_pong; Heartbeat.ws_terminate]).
Proof. reflexivity. Qed.

(** ** One response per request *)

Lemma switch_find (table : list (string * (Data.t -> M unit)))
  (action : option string) (data : Data.t) (k : unit -> Prog)
  (h : string -> Prog) :
  switch table action data k h
  = match find (fun c => JS.eq_lit action (fst c)) table with
    | Some c => snd c data k h
    | None => k tt
    end.
Proof.
  induction table as [|[label body] rest IH]; simpl; [reflexivity|].
  destruct (JS.eq_lit action label); [reflexivity | exact IH].
Qed.






(** ** Correlation of responses with requests *)

Ltac echo :=
  unfold failure, error_response, invalid_path, field, obj, jstr, jbool,
    jopt, option_map;
  simpl; reflexivity.

Ltac each_echo :=
  repeat match goal with
    | |- forall _, _ => intro
    | |- AllSent _ _ => progress cbn [AllSent]
    | |- _ /\ _ => split
    | |- True => exact I
    | |- context [jopt ?x] => is_var x; destruct x
    | |- field _ _ = _ => now echo
    | |- Some _ = _ => reflexivity
    | |- None = _ => reflexivity
    | |- context [match ?x with _ => _ end] => destruct x; simpl
    end.

Lemma cases_echo_action :
  Forall (fun c =>
            forall data,
              AllSent (fun msg => field "action" msg = Some (JString (fst c)))
                (snd c data (fun _ => Done)
                   (fun error => Send (error_response error) Done)))
         cases.
Proof.
  unfold cases.
  repeat (constructor; [intros data; destruct data; simpl; unfold_handler;
                        each_echo|]).
  constructor.
Qed.

(** X7: every message sent in answer to a request other than [ping]
    carries the request's own action name; in particular a request that
    parses is never answered with the generic [error] message of the
    outer [catch]. *)
Theorem X7_response_echoes_action (data : Data.t) (action : string) :
  Data.action data = Some action ->
  action <> "ping" ->
  AllSent (fun msg => field "action" msg = Some (JString action))
    (on_message (Object data)).
Proof.
  intros Haction Hping.
  assert (Hnot : JS.eq_lit (Data.action data) "ping" = false)
    by (rewrite Haction; apply String.eqb_neq; exact Hping).
  destruct (path_gate data) eqn:G.
  - rewrite on_message_gate by assumption.
    cbn [AllSent]. split; [|exact I]. unfold invalid_path.
    unfold path_gate, JS.truthy in G. rewrite Haction.
    destruct (Data.path data); [reflexivity | discriminate].
  - rewrite on_message_dispatched by assumption.
    unfold dispatched. rewrite switch_find.
    destruct (find (fun c => JS.eq_lit (Data.action data) (fst c)) cases)
      as [c|] eqn:Hfind; [|exact I].
    apply find_some in Hfind. destruct Hfind as [Hin Hlabel].
    rewrite Haction in Hlabel. apply String.eqb_eq in Hlabel. subst action.
    pose proof cases_echo_action as Hall.
    rewrite Forall_forall in Hall. apply Hall. exact Hin.
Qed.

(** X7 on a [git-commit] request. *)
Lemma X7_witness :
  AllSent (fun msg => field "action" msg = Some (JString "git-commit"))
    (on_message (Object (request "git-commit"))).
Proof.
  apply (X7_response_echoes_action (request "git-commit") "git-commit").
  - reflexivity.
  - discriminate.
Defined.



(** ** Requests that lack a required field *)

(** X9: a [git] request without a [command], a [git-diff] request without
    a [file], a [git-commit] request without a [message] and an [exec]
    request without a [command] are answered with one failure response,
    and no subprocess is started. *)
Theorem X9_missing_field_refused (data : Data.t) :
  lacks_required_field data ->
  Refuses (on_message (Object data)) /\ NoCall (on_message (Object data)).
Proof.
  intros Hlacks.
  assert (Hnot : JS.eq_lit (Data.action data) "ping" = false)
    by (destruct Hlacks as [[-> _]|[[-> _]|[[-> _]|[-> _]]]]; reflexivity).
  destruct (path_gate data) eqn:G.
  - rewrite on_message_gate by assumption. split; [|exact I].
    eexists; split; [reflexivity | apply invalid_path_is_failure].
  - rewrite on_message_dispatched by assumption. unfold dispatched.
    destruct data as [a p o n c e cmd m f].
    unfold lacks_required_field in Hlacks. simpl in Hlacks.
    cbn [Data.action].
    destruct Hlacks as [[-> Hf]|[[-> Hf]|[[-> Hf]|[-> Hf]]]];
      [ subst cmd | destruct f as [[|? ?]|] | destruct m as [[|? ?]|]
      | destruct cmd as [[|? ?]|] ];
      try discriminate; simpl; unfold_handler;
      (split; [|exact I]); (eexists; split; [reflexivity|]);
      unfold is_failure, failure, obj, field; simpl; eauto.
Qed.

(** X9 on a [git-commit] request with an empty message. *)
Lemma X9_witness :
  Refuses
    (on_message
       (Object (Data.mk (Some "git-commit") None None None None None None
                  (Some "") None)))
  /\ NoCall
       (on_message
          (Object (Data.mk (Some "git-commit") None None None None None None
                     (Some "") None))).
Proof.
  apply (X9_missing_field_refused
           (Data.mk (Some "git-commit") None None None None None None
              (Some "") None)).
  right. right. left. split; reflexivity.
Defined.

(** ** The [exec] allow-list *)




Lemma test_extends (s suffix : string) :
  forall r, Regex.test r s = true -> Regex.test r (s +++ suffix) = true.
Proof.
  induction s as [|c s IH]; intros r; simpl; intros H.
  - rewrite orb_false_r in H. destruct suffix; simpl; rewrite H; reflexivity.
  - apply orb_true_iff in H. destruct H as [->|H]; [reflexivity|].
    rewrite (IH _ H). apply orb_true_r.
Qed.




(** X10: the [exec] patterns are anchored at the start of the command
    only: a command that is allowed stays allowed whatever text is added
    after it. *)
Theorem X10_allowed_commands_extend (execCommand suffix : string) :
  isAllowed execCommand = true ->
  isAllowed (execCommand +++ suffix) = true.
Proof.
  unfold isAllowed. rewrite !existsb_exists.
  intros (pattern & Hin & Htest). exists pattern.
  auto using test_extends.
Qed.

(** X10 on [npm run build] followed by a second shell command. *)
Lemma X10_witness : isAllowed ("npm run build" +++ "; curl x | sh") = true.
Proof.
  apply (X10_allowed_commands_extend "npm run build" "; curl x | sh").
  reflexivity.
Defined.





(** ** Order of the subprocesses *)



Example pull_force_after_failed_fetch :
  account (on_message (Object (request "git-pull-force")))
    [Throws "fatal: unable to access remote"]
  = [Ran "git fetch origin";
     Got (obj [("action", jstr "git-pull-force"); ("success", jbool false);
               ("error", jstr "fatal: unable to access remote")])].
Proof. reflexivity. Qed.

Example pull_force_resets_to_branch :
  account (on_message (Object (request "git-pull-force")))
    [Ok ("", ""); Ok ("main" +++ LF, ""); Ok ("HEAD is now at 1a2b3c4", "")]
  = [Ran "git fetch origin"; Ran "git rev-parse --abbrev-ref HEAD";
     Ran "git reset --hard origin/main";
     Got (obj [("action", jstr "git-pull-force"); ("success", jbool true);
               ("branch", jstr "main");
               ("output", jstr "HEAD is now at 1a2b3c4")])].
Proof. reflexivity. Qed.

(** X14: the only command lines [git-commit] ever runs are [git add -A]
    and then, only if the staging succeeded, [git commit -m] followed by
    the message as [JSON.stringify] quotes it; neither is run unless the
    request carries a non-empty message. *)
Theorem X14_commit_order (data : Data.t)
  (answers : list (Result (string * string))) (command : string) :
  Data.action data = Some "git-commit" ->
  In (Ran command) (account (on_message (Object data)) answers) ->
  exists commitMsg,
    Data.message data = Some commitMsg /\ commitMsg <> ""
    /\ (command = "git add -A"
        \/ exists staged rest,
             answers = Ok staged :: rest
             /\ command = "git commit -m " +++ JSON_stringify commitMsg).
Proof.
  intros Haction.
  destruct (path_gate data) eqn:G.
  - rewrite on_message_gate by (rewrite ?Haction; auto).
    simpl. intros [H|[]]. discriminate.
  - rewrite on_message_dispatched by (rewrite ?Haction; auto).
    unfold dispatched. rewrite Haction.
    destruct data as [a p o n c e cmd [commitMsg|] f];
      [|simpl; unfold_handler; intros [H|[]]; discriminate].
    cbn [Data.message]. simpl. unfold_handler.
    destruct (String.eqb_spec commitMsg "") as [->|Hne];
      [simpl; intros [H|[]]; discriminate|].
    intros Hran. exists commitMsg. split; [reflexivity|].
    split; [exact Hne|].
    destruct answers as [|[staged|e1] [|[out|e2] rest]]; simpl in Hran;
      repeat match goal with
        | H : _ \/ _ |- _ => destruct H as [H|H]
        | H : False |- _ => destruct H
        | H : Ran _ = Ran _ |- _ => injection H as <-
        | H : Got _ = Ran _ |- _ => discriminate H
        end;
      try (left; reflexivity);
      right; eexists _, _; split; reflexivity.
Qed.

(** X14 on a commit whose staging succeeds. *)
Lemma X14_witness :
  exists commitMsg,
    Some "fix typo" = Some commitMsg /\ commitMsg <> ""
    /\ ("git commit -m " +++ JSON_stringify "fix typo" = "git add -A"
        \/ exists staged rest,
             [Ok ("", "")] = Ok staged :: rest
             /\ "git commit -m " +++ JSON_stringify "fix typo"
                = "git commit -m " +++ JSON_stringify commitMsg).
Proof.
  apply (X14_commit_order
           (Data.mk (Some "git-commit") None None None None None None
              (Some "fix typo") None)
           [Ok ("", "")]
           ("git commit -m " +++ JSON_stringify "fix typo")).
  - reflexivity.
  - simpl. auto.
Defined.

(** ** Paths of a listing *)

Lemma relativePath_below (base name : string) :
  base <> "" -> relativePath base name = base +++ "/" +++ name.
Proof.
  intros Hne. unfold relativePath.
  destruct (String.eqb_spec base ""); [contradiction | reflexivity].
Qed.

Lemma below_child (base name parent : string) :
  below (relativePath base name) parent -> below base parent.
Proof.
  unfold below. destruct (String.eqb_spec base "") as [->|Hne]; [auto|].
  rewrite relativePath_below by exact Hne.
  intros [E|[->|[r ->]]]; right; right.
  - destruct base; [contradiction | discriminate].
  - exists name. rewrite append_assoc. reflexivity.
  - exists (name +++ "/" +++ r). rewrite !append_assoc. reflexivity.
Qed.

Lemma listed_under_parent (dir : Dir) :
  forall basePath e,
    In e (listDirectory dir basePath) ->
    exists parent,
      Entry.path e = relativePath parent (Entry.name e)
      /\ below basePath parent.
Proof.
  induction dir as [message|entries IH] using Dir_induction;
    intros basePath e; [intros []|].
  induction IH as [|entry rest Hsub _ IHrest]; [intros []|].
  rewrite listDirectory_cons, in_app_iff. intros [Hin|Hin]; [|auto].
  unfold contribution in Hin.
  destruct (skipped (dirent_name entry)); [destruct Hin|].
  assert (Hown : below basePath basePath) by (right; left; reflexivity).
  destruct entry as [name|name sub]; simpl in Hin.
  - destruct Hin as [<-|[]]. exists basePath. auto.
  - destruct Hin as [<-|Hin]; [exists basePath; auto|].
    destruct (Hsub _ _ Hin) as (parent & Hpath & Hbelow).
    exists parent. eauto using below_child.
Qed.

(** X15: every entry of a listing has as its path the path of the
    directory it was found in, a slash and its name (the bare name at
    the root of a listing with an empty base); hence, when the base path
    is not empty, every path of the listing begins with the base path
    and a slash. *)
Theorem X15_listing_paths_below_base (dir : Dir) (basePath : string)
  (e : Entry.t) :
  In e (listDirectory dir basePath) ->
  (exists parent,
      Entry.path e = relativePath parent (Entry.name e)
      /\ below basePath parent)
  /\ (basePath <> "" -> begins (basePath +++ "/") (Entry.path e)).
Proof.
  intros Hin.
  destruct (listed_under_parent dir basePath e Hin)
    as (parent & Hpath & Hbelow).
  split; [exists parent; auto|].
  intros Hne. rewrite Hpath.
  destruct Hbelow as [E|[->|[r ->]]]; [contradiction| |].
  - rewrite relativePath_below by exact Hne.
    exists (Entry.name e). rewrite append_assoc. reflexivity.
  - rewrite relativePath_below
      by (destruct basePath; [contradiction | discriminate]).
    exists (r +++ "/" +++ Entry.name e). rewrite !append_assoc. reflexivity.
Qed.

(** X15 on a file two levels below [src]. *)
Lemma X15_witness :
  (exists parent,
      "src/pages/index.astro" = relativePath parent "index.astro"
      /\ below "src" parent)
  /\ ("src" <> "" -> begins ("src" +++ "/") "src/pages/index.astro").
Proof.
  apply (X15_listing_paths_below_base
           (Readable [DirDirent "pages" (Readable [FileDirent "index.astro"])])
           "src" (Entry.mk "index.astro" "src/pages/index.astro" false)).
  simpl. auto.
Defined.

(** ** More on the path validator *)

Lemma replace_backslashes_idempotent (s : string) :
  JS.replace_backslashes (JS.replace_backslashes s)
  = JS.replace_backslashes s.
Proof.
  induction s as [|c s IH]; simpl; [reflexivity|].
  rewrite IH. destruct (Ascii.eqb_spec c "\"); [reflexivity|].
  destruct (Ascii.eqb_spec c "\"); [contradiction | reflexivity].
Qed.

(** X16: the validator does not tell a backslash from a slash: a path
    and the same path with every backslash written as a slash get the
    same verdict. *)
Theorem X16_separators_interchangeable (filePath : string) :
  isPathSafe (Some filePath)
  = isPathSafe (Some (JS.replace_backslashes filePath)).
Proof.
  destruct filePath as [|c s]; [reflexivity|].
  rewrite !isPathSafe_unfold by discriminate.
  cbv zeta. rewrite replace_backslashes_idempotent. reflexivity.
Qed.

Lemma split_shape (sep : ascii) (s : string) :
  exists w ws,
    JS.split sep s = w :: ws
    /\ (s = w \/ begins (w +++ String sep "") s)
    /\ forall seg, In seg ws -> occurs (String sep seg) s.
Proof.
  induction s as [|c s (w & ws & Hsplit & Hfirst & Hrest)]; simpl.
  - exists "", []. repeat split; auto. intros seg [].
  - destruct (Ascii.eqb_spec c sep) as [->|Hc].
    + exists "", (JS.split sep s). repeat split.
      * right. exists s. reflexivity.
      * rewrite Hsplit. intros seg [<-|Hin].
        -- destruct Hfirst as [->|[r ->]].
           ++ exists "", "". simpl. rewrite append_nil_r. reflexivity.
           ++ exists "", (String sep r). simpl.
              rewrite append_assoc. reflexivity.
        -- destruct (Hrest seg Hin) as (b & a & ->).
           exists (String sep b), a. reflexivity.
    + rewrite Hsplit. exists (String c w), ws. repeat split.
      * destruct Hfirst as [->|[r ->]]; [left | right; exists r];
          reflexivity.
      * intros seg Hin. destruct (Hrest seg Hin) as (b & a & ->).
        exists (String c b), a. reflexivity.
Qed.

(** X17: a path the validator accepts has no segment [..] (with either
    separator), and its first segment is neither empty, as it is in an
    absolute path, nor [.git] nor [node_modules]. *)
Theorem X17_accepted_paths_stay_inside (filePath : string) :
  isPathSafe (Some filePath) = true ->
  ~ In ".." (segments filePath)
  /\ forall first rest,
       segments filePath = first :: rest ->
       first <> "" /\ first <> ".git" /\ first <> "node_modules".
Proof.
  intros Hsafe.
  assert (Hne : filePath <> "") by (intros ->; discriminate).
  rewrite isPathSafe_unfold in Hsafe by exact Hne. cbv zeta in Hsafe.
  apply negb_true_iff in Hsafe.
  repeat (apply orb_false_iff in Hsafe; destruct Hsafe as [Hsafe ?]).
  repeat match goal with
         | H : _ || _ = false |- _ =>
             apply orb_false_iff in H; destruct H
         | H : JS.startsWith _ _ = false |- _ => apply startsWith_false in H
         | H : JS.includes _ _ = false |- _ => apply includes_false in H
         | H : String.eqb _ _ = false |- _ => apply String.eqb_neq in H
         end.
  unfold segments.
  assert (Hn : JS.replace_backslashes filePath <> "")
    by (destruct filePath; [contradiction | discriminate]).
  destruct (split_shape "/" (JS.replace_backslashes filePath))
    as (w & ws & Hsplit & Hfirst & Hrest).
  rewrite Hsplit. split.
  - intros [->|Hin].
    + destruct Hfirst as [E|[r E]]; [congruence|].
      match goal with H : ~ occurs "../" _ |- _ => apply H end.
      exists "", r. exact E.
    + match goal with H : ~ occurs "/.." _ |- _ => apply H end.
      auto.
  - intros first rest E. injection E as <- <-.
    repeat split; intros ->; destruct Hfirst as [E|E]; auto.
Qed.

(** X17 on [src/pages/index.astro]. *)
Lemma X17_witness :
  ~ In ".." (segments "src/pages/index.astro")
  /\ forall first rest,
       segments "src/pages/index.astro" = first :: rest ->
       first <> "" /\ first <> ".git" /\ first <> "node_modules".
Proof.
  apply (X17_accepted_paths_stay_inside "src/pages/index.astro").
  reflexivity.
Defined.

(** ** File operations *)

(** X18: a [read] whose [encoding] is anything but [base64] reads the
    file as UTF-8 text, and the response names the encoding the request
    asked for, [utf8] standing in for a missing or empty one. *)
Theorem X18_read_text_echoes_encoding (W : World) (w w' : state W)
  (data : Data.t) (content : string) :
  Data.action data = Some "read" ->
  path_gate data = false ->
  JS.eq_lit (Data.encoding data) "base64" = false ->
  perform W w (fs_readFile_utf8 (arg (Data.path data))) = (w', Ok content) ->
  run W w (on_message (Object data))
  = (w', [Sent (obj [("action", jstr "read");
                     ("path", jopt (Data.path data));
                     ("content", jstr content);
                     ("encoding",
                      jstr (JS.or_default (Data.encoding data) "utf8"));
                     ("success", jbool true)])]).
Proof.
  intros Haction Hgate Henc Hread.
  rewrite on_message_dispatched by (rewrite ?Haction; auto).
  unfold dispatched. rewrite Haction.
  change (switch cases (Some "read") data) with (case_read data).
  unfold case_read, try_catch, bind, await, ret, send.
  rewrite Henc. cbn [run]. rewrite Hread. reflexivity.
Qed.

(** X18 on a read that asks for the encoding [hex]. *)
Lemma X18_witness :
  run TextFS.world [("notes.md", "# Notes")]
    (on_message
       (Object (Data.mk (Some "read") (Some "notes.md") None None None
                  (Some "hex") None None None)))
  = ([("notes.md", "# Notes")],
     [Sent (obj [("action", jstr "read"); ("path", jstr "notes.md");
                 ("content", jstr "# Notes"); ("encoding", jstr "hex");
                 ("success", jbool true)])]).
Proof.
  apply (X18_read_text_echoes_encoding TextFS.world
           [("notes.md", "# Notes")] [("notes.md", "# Notes")]
           (Data.mk (Some "read") (Some "notes.md") None None None
              (Some "hex") None None None) "# Notes");
    reflexivity.
Defined.

(** X19: once the parent directory is made and the file written, a
    [create] is answered with success whatever becomes of the touch of
    [global.css]; a request without [content] writes the empty file. *)
Theorem X19_create_succeeds_without_trigger (W : World)
  (w w1 w2 : state W) (data : Data.t) (p : string) :
  Data.action data = Some "create" ->
  Data.path data = Some p ->
  path_gate data = false ->
  perform W w (fs_mkdir_recursive (Dirname p)) = (w1, Ok tt) ->
  perform W w1
    (fs_writeFile_utf8 (Lit p) (Some (JS.or_default (Data.content data) "")))
  = (w2, Ok tt) ->
  snd (run W w (on_message (Object data)))
  = [Sent (obj [("action", jstr "create"); ("path", jstr p);
                ("success", jbool true)])].
Proof.
  intros Haction Hpath Hgate Hmkdir Hwrite.
  rewrite on_message_dispatched by (rewrite ?Haction; auto).
  unfold dispatched. rewrite Haction.
  change (switch cases (Some "create") data) with (case_create data).
  unfold case_create, touch_tailwind, path_dirname, try_catch, bind, await,
    ret, send.
  rewrite Hpath. cbn [run arg]. rewrite Hmkdir. cbn [run]. rewrite Hwrite.
  match goal with
  | |- context [if ?touches then _ else _] => destruct touches
  end; cbn [run]; [|reflexivity].
  destruct (perform W w2 (fs_utimes_now (Lit "src/styles/global.css")))
    as [w3 [[]|error]]; reflexivity.
Qed.

(** X19 on the scenario of a new page, in a file system without
    [global.css]. *)
Lemma X19_witness :
  snd (run TextFS.world []
         (on_message
            (Object (Data.mk (Some "create") (Some "src/pages/test.astro")
                       None None None None None None None))))
  = [Sent (obj [("action", jstr "create");
                ("path", jstr "src/pages/test.astro");
                ("success", jbool true)])].
Proof.
  apply (X19_create_succeeds_without_trigger TextFS.world [] []
           [("src/pages/test.astro", "")]
           (Data.mk (Some "create") (Some "src/pages/test.astro")
              None None None None None None None)
           "src/pages/test.astro");
    reflexivity.
Defined.

#[local] Arguments confined : simpl never.

Ltac within :=
  unfold confined; cbn [Data.path Data.oldPath Data.newPath arg];
  repeat match goal with
    | H : context [isPathSafe ?x] |- _ =>
        destruct (isPathSafe x); cbn [negb orb] in H; try discriminate H
    end;
  solve [repeat split; eauto 7].

Ltac confine :=
  repeat match goal with
    | |- forall _, _ => intro
    | |- AllCalls _ _ => progress cbn [AllCalls]
    | |- confined _ _ _ => within
    | |- _ /\ _ => split
    | |- True => exact I
    | |- context [match ?x with _ => _ end] => destruct x eqn:?; simpl
    end.

(** X20: whatever a file operation ([read], [write], [list], [delete],
    [rename], [create], [mkdir]) calls, it calls on the request's own
    path, on the parent directory of its target, on the directory to
    list or on [global.css]; [rename] is only called with both paths
    validated; and no file operation starts a subprocess. *)
Theorem X20_file_operations_confined (data : Data.t) (action : string) :
  Data.action data = Some action ->
  In action file_operations ->
  AllCalls (confined data) (on_message (Object data)).
Proof.
  intros Haction Hin.
  assert (Hnot : JS.eq_lit (Data.action data) "ping" = false)
    by (rewrite Haction; simpl in Hin;
        repeat (destruct Hin as [<-|Hin]; [reflexivity|]); destruct Hin).
  destruct (path_gate data) eqn:G.
  - rewrite on_message_gate by assumption. exact I.
  - rewrite on_message_dispatched by assumption.
    unfold dispatched. rewrite Haction. clear Haction Hnot G.
    simpl in Hin.
    repeat (destruct Hin as [<-|Hin];
            [destruct data as [a p o n c e cmd m f]; simpl; unfold_handler;
             confine|]).
    destruct Hin.
Qed.

(** X20 on a [rename] request. *)
Lemma X20_witness :
  AllCalls
    (confined (Data.mk (Some "rename") None (Some "a.txt") (Some "b/c.txt")
                 None None None None None))
    (on_message
       (Object (Data.mk (Some "rename") None (Some "a.txt") (Some "b/c.txt")
                  None None None None None))).
Proof.
  apply (X20_file_operations_confined
           (Data.mk (Some "rename") None (Some "a.txt") (Some "b/c.txt")
              None None None None None) "rename").
  - reflexivity.
  - simpl. auto 8.
Defined.


